(** * Peace-Justice: the streaming chat transcript assembler

    A shallow embedding of [src/components/ChatInterface.tsx]: the line
    reader, frame parser and transcript assembler inside [handleSend], and
    the persistence helpers [createConversation] and [saveMessage].

    Layout: the JavaScript string primitives the component calls, the JSON
    values [JSON.parse] returns, the host engine as a record, a reference
    host with a JSON parser, the two nested [while] loops of [handleSend],
    then the whole turn with its effects.  Theorems follow the definitions. *)

From Stdlib Require Import String Ascii.
From Stdlib Require Import List NArith ZArith Bool Arith Lia.
Import ListNotations.

Set Warnings "-register-all".

(* ================================================================== *)
(** ** JavaScript strings *)

(** A JavaScript string is a finite sequence of 16-bit code units.
    [length], [indexOf], [slice], [substring], [startsWith], [endsWith] and
    [trim] all work on code units. *)
Definition code_unit := N.
Definition jsstring := list code_unit.

(** A literal of the source, written as a Rocq string of ASCII characters. *)
Definition js (s : string) : jsstring :=
  map N_of_ascii (list_ascii_of_string s).

(** The same, with the apostrophe standing for the double quote, so that
    JSON text can be written inline in the examples. *)
Definition jsq (s : string) : jsstring :=
  map (fun c => if N.eqb c 39 then 34%N else c) (js s).

Definition LF : code_unit := 10%N.
Definition CR : code_unit := 13%N.

Fixpoint streqb (a b : jsstring) : bool :=
  match a, b with
  | [], [] => true
  | x :: a', y :: b' => N.eqb x y && streqb a' b'
  | _, _ => false
  end.

(** [s.indexOf(c)] for a one-unit needle; [None] is the source's [-1]. *)
Fixpoint indexOf (c : code_unit) (s : jsstring) : option nat :=
  match s with
  | [] => None
  | x :: r => if N.eqb x c then Some 0 else option_map S (indexOf c r)
  end.

(** [s.slice(a, b)] and [s.slice(a)] for non-negative in-range indices, and
    [s.slice(0, -1)]. *)
Definition slice (a b : nat) (s : jsstring) : jsstring :=
  firstn (b - a) (skipn a s).
Definition slice_from (a : nat) (s : jsstring) : jsstring := skipn a s.
Definition slice_drop_last (s : jsstring) : jsstring := removelast s.

(** [s.substring(0, n)]. *)
Definition substring0 (n : nat) (s : jsstring) : jsstring := firstn n s.

Fixpoint startsWith (p s : jsstring) : bool :=
  match p, s with
  | [], _ => true
  | a :: p', b :: s' => N.eqb a b && startsWith p' s'
  | _ :: _, [] => false
  end.

(** [s.endsWith(c)] for a one-unit suffix. *)
Definition endsWith (c : code_unit) (s : jsstring) : bool :=
  match rev s with
  | x :: _ => N.eqb x c
  | [] => false
  end.

(** ECMAScript WhiteSpace and LineTerminator code points, the set that
    [String.prototype.trim] strips. *)
Definition is_space (c : code_unit) : bool :=
  ((9 <=? c) && (c <=? 13) || (c =? 32) || (c =? 160) || (c =? 5760)
   || (8192 <=? c) && (c <=? 8202) || (c =? 8232) || (c =? 8233)
   || (c =? 8239) || (c =? 8287) || (c =? 12288) || (c =? 65279))%N.

Fixpoint trimStart (s : jsstring) : jsstring :=
  match s with
  | c :: r => if is_space c then trimStart r else s
  | [] => []
  end.
Definition trimEnd (s : jsstring) : jsstring := rev (trimStart (rev s)).
Definition trim (s : jsstring) : jsstring := trimEnd (trimStart s).

(* ================================================================== *)
(** ** JSON values and the property chain *)

(** What [JSON.parse] can return.  A number is carried as the decimal the
    text denotes, [m * 10^e]; the engine's rounding to a double lives in the
    host's two number conversions below. *)
Inductive JSON : Type :=
| JNull
| JBool (b : bool)
| JNumber (m e : Z)
| JString (s : jsstring)
| JArray (items : list JSON)
| JObject (members : list (jsstring * JSON)).

(** A JavaScript value as the component sees it: [None] is [undefined]. *)
Definition Value := option JSON.

(** Own property of a parsed object; a repeated key keeps its last value. *)
Fixpoint lookup (k : jsstring) (members : list (jsstring * JSON)) : Value :=
  match members with
  | [] => None
  | (k', v) :: rest =>
      match lookup k rest with
      | Some v' => Some v'
      | None => if streqb k k' then Some v else None
      end
  end.

(** [v.name] for a name that no prototype defines ([choices], [delta],
    [content]), on a [v] that is neither [null] nor [undefined]. *)
Definition get_named (name : jsstring) (v : JSON) : Value :=
  match v with
  | JObject members => lookup name members
  | _ => None
  end.

(** [v[0]] on a [v] that is neither [null] nor [undefined]. *)
Definition get_index0 (v : JSON) : Value :=
  match v with
  | JObject members => lookup (js "0") members
  | JArray items => nth_error items 0
  | JString (c :: _) => Some (JString [c])
  | _ => None
  end.

(** [base?.p]: [undefined] when the base is [null] or [undefined]. *)
Definition optional (get : JSON -> Value) (base : Value) : Value :=
  match base with
  | None | Some JNull => None
  | Some v => get v
  end.

(** [parsed.choices?.[0]?.delta?.content]; the first access is not optional,
    so it throws a TypeError on [null] (the outer [None]). *)
Definition delta_content (parsed : JSON) : option Value :=
  match parsed with
  | JNull => None
  | _ =>
      let choices := get_named (js "choices") parsed in
      let first := optional get_index0 choices in
      let delta := optional (get_named (js "delta")) first in
      Some (optional (get_named (js "content")) delta)
  end.

(* ================================================================== *)
(** ** The host engine *)

(** The builtins the component calls and does not define.  [JSON_parse]
    answers [None] when [JSON.parse] throws a SyntaxError;
    [Number_toBoolean m e] tells whether the double nearest to [m * 10^e]
    is truthy (not zero), and [Number_toString m e] is that double printed
    by the engine. *)
Record Host : Type := {
  JSON_parse : jsstring -> option JSON;
  Number_toBoolean : Z -> Z -> bool;
  Number_toString : Z -> Z -> jsstring
}.

Section HostConversions.
Variable h : Host.

(** [if (content)]. *)
Definition ToBoolean (v : Value) : bool :=
  match v with
  | None | Some JNull => false
  | Some (JBool b) => b
  | Some (JNumber m e) => Number_toBoolean h m e
  | Some (JString s) => negb (streqb s [])
  | Some (JArray _) | Some (JObject _) => true
  end.

(** The string that [assistantMessage += content] appends: [content]
    converted to a primitive and then to a string.  A parsed object with
    an own [toString] member (never callable) has no primitive value, and
    the conversion throws a TypeError ([None]); in an array, [null]
    elements convert to the empty string. *)
Fixpoint ToString (v : JSON) : option jsstring :=
  match v with
  | JNull => Some (js "null")
  | JBool true => Some (js "true")
  | JBool false => Some (js "false")
  | JNumber m e => Some (Number_toString h m e)
  | JString s => Some s
  | JArray items =>
      let item v := match v with JNull => Some [] | _ => ToString v end in
      (fix join (l : list JSON) : option jsstring :=
         match l with
         | [] => Some []
         | [x] => item x
         | x :: r =>
             match item x, join r with
             | Some a, Some b => Some (a ++ js "," ++ b)
             | _, _ => None
             end
         end) items
  | JObject members =>
      match lookup (js "toString") members with
      | Some _ => None
      | None => Some (js "[object Object]")
      end
  end.
End HostConversions.

(* ================================================================== *)
(** ** A reference host *)

(** A host to run the component on: [JSON.parse] by the JSON grammar
    (ECMA-404), as a recursive-descent parser.  Its two number conversions
    do not round to a double: they agree with the engine's only on integers
    of magnitude below 2^53 written without fraction or exponent, and
    differ elsewhere (a non-zero literal that underflows is truthy here, a
    fraction is printed with an exponent).  No statement or example below
    parses a number; the results that matter hold for every host. *)
Module RefHost.

Definition json_ws (c : code_unit) : bool :=
  ((c =? 32) || (c =? 9) || (c =? 10) || (c =? 13))%N.

Fixpoint skip_ws (s : jsstring) : jsstring :=
  match s with
  | c :: r => if json_ws c then skip_ws r else s
  | [] => []
  end.

Definition is_digit (c : code_unit) : bool := ((48 <=? c) && (c <=? 57))%N.

Definition hex (c : code_unit) : option N :=
  if is_digit c then Some (c - 48)%N
  else if ((97 <=? c) && (c <=? 102))%N then Some (c - 87)%N
  else if ((65 <=? c) && (c <=? 70))%N then Some (c - 55)%N
  else None.

(** The unit a one-letter escape denotes. *)
Definition escape (e : code_unit) : option code_unit :=
  if (e =? 34)%N then Some 34%N          (* quote *)
  else if (e =? 92)%N then Some 92%N     (* backslash *)
  else if (e =? 47)%N then Some 47%N     (* slash *)
  else if (e =? 98)%N then Some 8%N      (* backspace *)
  else if (e =? 102)%N then Some 12%N    (* form feed *)
  else if (e =? 110)%N then Some 10%N    (* line feed *)
  else if (e =? 114)%N then Some 13%N    (* carriage return *)
  else if (e =? 116)%N then Some 9%N     (* tab *)
  else None.

Definition push (c : code_unit) (k : option (jsstring * jsstring))
  : option (jsstring * jsstring) :=
  match k with
  | Some (body, rest) => Some (c :: body, rest)
  | None => None
  end.

(** A string's units after its opening quote, and what follows the
    closing quote. *)
Fixpoint string_body (s : jsstring) : option (jsstring * jsstring) :=
  match s with
  | [] => None
  | c :: r =>
      if (c =? 34)%N then Some ([], r)
      else if (c =? 92)%N then
        match r with
        | e :: r1 =>
            if (e =? 117)%N then
              match r1 with
              | a :: b :: c' :: d :: r2 =>
                  match hex a, hex b, hex c', hex d with
                  | Some x, Some y, Some z, Some w =>
                      push (((x * 16 + y) * 16 + z) * 16 + w)%N
                           (string_body r2)
                  | _, _, _, _ => None
                  end
              | _ => None
              end
            else
              match escape e with
              | Some u => push u (string_body r1)
              | None => None
              end
        | [] => None
        end
      else if (c <? 32)%N then None
      else push c (string_body r)
  end.

Fixpoint take_digits (s : jsstring) : list N * jsstring :=
  match s with
  | c :: r =>
      if is_digit c
      then let (ds, r') := take_digits r in ((c - 48)%N :: ds, r')
      else ([], s)
  | [] => ([], [])
  end.

Definition digits_value (ds : list N) : Z :=
  fold_left (fun a d => (a * 10 + Z.of_N d)%Z) ds 0%Z.

Definition is_nil {A} (l : list A) : bool :=
  match l with [] => true | _ => false end.

(** [-? int frac? exp?], read as the decimal [m * 10^e]. *)
Definition number (s : jsstring) : option (JSON * jsstring) :=
  let (neg, s1) :=
    match s with
    | c :: r => if (c =? 45)%N then (true, r) else (false, s)
    | [] => (false, s)
    end in
  let (ip, s2) := take_digits s1 in
  match ip with
  | [] => None
  | d :: ds =>
      if (d =? 0)%N && negb (is_nil ds) then None
      else
        let frac :=
          match s2 with
          | c :: r =>
              if (c =? 46)%N
              then let (fp, r') := take_digits r in
                   if is_nil fp then None else Some (fp, r')
              else Some ([], s2)
          | [] => Some ([], s2)
          end in
        match frac with
        | None => None
        | Some (fp, s3) =>
            let expo :=
              match s3 with
              | c :: r =>
                  if ((c =? 101) || (c =? 69))%N then
                    let (eneg, r1) :=
                      match r with
                      | sg :: r' =>
                          if (sg =? 45)%N then (true, r')
                          else if (sg =? 43)%N then (false, r')
                          else (false, r)
                      | [] => (false, r)
                      end in
                    let (ep, r2) := take_digits r1 in
                    if is_nil ep then None
                    else Some ((if eneg then - digits_value ep
                                else digits_value ep)%Z, r2)
                  else Some (0%Z, s3)
              | [] => Some (0%Z, s3)
              end in
            match expo with
            | None => None
            | Some (ex, s4) =>
                let m := digits_value (ip ++ fp) in
                Some (JNumber (if neg then - m else m)%Z
                              (ex - Z.of_nat (length fp))%Z, s4)
            end
        end
  end.

(** One value at the head of [s] (white space already skipped), the
    elements of an array after its bracket, the members of an object
    after its brace.  The fuel bounds the depth of the descent. *)
Fixpoint value (fuel : nat) (s : jsstring) : option (JSON * jsstring) :=
  match fuel with
  | O => None
  | S f =>
      match s with
      | [] => None
      | c :: r =>
          if (c =? 123)%N then
            match skip_ws r with
            | c' :: r' =>
                if (c' =? 125)%N then Some (JObject [], r')
                else match members f (c' :: r') with
                     | Some (ms, r'') => Some (JObject ms, r'')
                     | None => None
                     end
            | [] => None
            end
          else if (c =? 91)%N then
            match skip_ws r with
            | c' :: r' =>
                if (c' =? 93)%N then Some (JArray [], r')
                else match elements f (c' :: r') with
                     | Some (vs, r'') => Some (JArray vs, r'')
                     | None => None
                     end
            | [] => None
            end
          else if (c =? 34)%N then
            match string_body r with
            | Some (body, r') => Some (JString body, r')
            | None => None
            end
          else if startsWith (js "true") s then Some (JBool true, skipn 4 s)
          else if startsWith (js "false") s then Some (JBool false, skipn 5 s)
          else if startsWith (js "null") s then Some (JNull, skipn 4 s)
          else number s
      end
  end
with elements (fuel : nat) (s : jsstring) : option (list JSON * jsstring) :=
  match fuel with
  | O => None
  | S f =>
      match value f s with
      | Some (v, r) =>
          match skip_ws r with
          | c :: r' =>
              if (c =? 44)%N then
                match elements f (skip_ws r') with
                | Some (vs, r'') => Some (v :: vs, r'')
                | None => None
                end
              else if (c =? 93)%N then Some ([v], r')
              else None
          | [] => None
          end
      | None => None
      end
  end
with members (fuel : nat) (s : jsstring)
  : option (list (jsstring * JSON) * jsstring) :=
  match fuel with
  | O => None
  | S f =>
      match s with
      | q :: r0 =>
          if (q =? 34)%N then
            match string_body r0 with
            | Some (k, r1) =>
                match skip_ws r1 with
                | col :: r2 =>
                    if (col =? 58)%N then
                      match value f (skip_ws r2) with
                      | Some (v, r3) =>
                          match skip_ws r3 with
                          | c :: r4 =>
                              if (c =? 44)%N then
                                match members f (skip_ws r4) with
                                | Some (ms, r5) => Some ((k, v) :: ms, r5)
                                | None => None
                                end
                              else if (c =? 125)%N then Some ([(k, v)], r4)
                              else None
                          | [] => None
                          end
                      | None => None
                      end
                    else None
                | [] => None
                end
            | None => None
            end
          else None
      | [] => None
      end
  end.

(** [JSON.parse(text)]: one value between optional white space, and
    nothing after it. *)
Definition parse (text : jsstring) : option JSON :=
  match value (2 * length text + 2) (skip_ws text) with
  | Some (v, r) => if is_nil (skip_ws r) then Some v else None
  | None => None
  end.

Fixpoint decimal_digits (fuel : nat) (n : N) (acc : jsstring) : jsstring :=
  match fuel with
  | O => acc
  | S f =>
      let acc' := (48 + n mod 10)%N :: acc in
      if (n / 10 =? 0)%N then acc' else decimal_digits f (n / 10)%N acc'
  end.

Definition decimal (z : Z) : jsstring :=
  let n := Z.abs_N z in
  (if (z <? 0)%Z then js "-" else [])
    ++ decimal_digits (S (N.to_nat (N.log2 n))) n [].

Definition host : Host := {|
  JSON_parse := parse;
  Number_toBoolean := fun m _ => negb (m =? 0)%Z;
  Number_toString := fun m e =>
    if (e =? 0)%Z then decimal m else decimal m ++ js "e" ++ decimal e
|}.

End RefHost.

(* ================================================================== *)
(** ** The stream loops of [handleSend] *)

(** The variables the two [while] loops update: [textBuffer] and
    [assistantMessage] are the source's; [snapshots] records the content of
    each [setMessages] call of the loop (the assistant text displayed), and
    [lines] records each [line] the reader hands to the frame parser, after
    the carriage return is stripped. *)
Record Loop : Type := mkLoop {
  textBuffer : jsstring;
  assistantMessage : jsstring;
  snapshots : list jsstring;
  lines : list jsstring
}.

(** [let assistantMessage = ''; let textBuffer = '';] *)
Definition loop_start : Loop := mkLoop [] [] [] [].

(** How one pass through the inner loop's body ends: at its closing brace
    or a [continue], or at a [break]. *)
Inductive Flow : Type :=
| Continue (s : Loop)
| Break (s : Loop).

(** How the [try] block of the body ends. *)
Inductive Tried : Type :=
| threw
| falsy
| appended (text : jsstring).

Section StreamLoops.
Variable h : Host.

(** How the [try] block ends: it throws (in [JSON.parse], in the
    property chain, or in the conversion of [content] to a string), it
    finds [content] falsy, or it appends a text. *)
Definition try_block (jsonStr : jsstring) : Tried :=
  match JSON_parse h jsonStr with
  | None => threw
  | Some parsed =>
      match delta_content parsed with
      | None => threw
      | Some content =>
          if ToBoolean h content then
            match content with
            | Some v =>
                match ToString h v with
                | Some text => appended text
                | None => threw
                end
            | None => falsy
            end
          else falsy
      end
  end.

(** The body of the inner [while], entered with the index that
    [textBuffer.indexOf] returned. *)
Definition loop_body (newlineIndex : nat) (s : Loop) : Flow :=
  let line := slice 0 newlineIndex (textBuffer s) in
  let textBuffer' := slice_from (newlineIndex + 1) (textBuffer s) in
  let line := if endsWith CR line then slice_drop_last line else line in
  let s' := mkLoop textBuffer' (assistantMessage s) (snapshots s)
                   (lines s ++ [line]) in
  if startsWith (js ":") line || streqb (trim line) [] then Continue s'
  else if negb (startsWith (js "data: ") line) then Continue s'
  else
    let jsonStr := trim (slice_from 6 line) in
    if streqb jsonStr (js "[DONE]") then Break s'
    else
      match try_block jsonStr with
      | appended text =>
          let assistantMessage' := assistantMessage s ++ text in
          Continue (mkLoop textBuffer' assistantMessage'
                           (snapshots s ++ [assistantMessage'])
                           (lines s'))
      | falsy => Continue s'
      | threw =>
          Break (mkLoop (line ++ LF :: textBuffer') (assistantMessage s)
                        (snapshots s) (lines s'))
      end.

(** The inner [while]: [None] only when the fuel runs out. *)
Fixpoint read_lines (fuel : nat) (s : Loop) : option Loop :=
  match fuel with
  | O => None
  | S fuel' =>
      match indexOf LF (textBuffer s) with
      | None => Some s
      | Some newlineIndex =>
          match loop_body newlineIndex s with
          | Continue s' => read_lines fuel' s'
          | Break s' => Some s'
          end
      end
  end.

(** One pass through the outer [while] with a chunk in hand: the decoded
    text of [value] is appended, then the inner loop runs.  The decoder is
    a streaming one, so the decoded chunks concatenate to the decoded
    body; a chunk is modelled by its decoded text. *)
Definition on_chunk (s : Loop) (value : jsstring) : option Loop :=
  let s' := mkLoop (textBuffer s ++ value) (assistantMessage s)
                   (snapshots s) (lines s) in
  read_lines (S (length (textBuffer s'))) s'.

(** The outer [while] over the chunks [reader.read()] yields before it
    reports [done]. *)
Fixpoint read_stream (chunks : list jsstring) (s : Loop) : option Loop :=
  match chunks with
  | [] => Some s
  | value :: rest =>
      match on_chunk s value with
      | Some s' => read_stream rest s'
      | None => None
      end
  end.
End StreamLoops.

(* ================================================================== *)
(** ** Effects of a turn *)

Inductive Role : Type := user | assistant.

Record Message : Type := mkMessage { role : Role; content : jsstring }.

(** What a turn does to the world outside the function: React state
    setters, the parent's callback, notifications, the console, the two
    table inserts and the completion request. *)
Inductive Event : Type :=
| setMessages (ms : list Message)
| setInput (text : jsstring)
| setIsLoading (b : bool)
| setCurrentConvId (id : jsstring)
| onConversationCreated (id : jsstring)
| toast_error (message : jsstring)
| console_error (label : jsstring)
| insert_conversation (user_id title : jsstring)
| insert_message (conversation_id : jsstring) (r : Role) (text : jsstring)
| fetch_legal_chat (ms : list Message).

(** How a computation ends: normally, by a thrown error (kept by its
    [message]), or not at all ([Unfinished]: the stream loop's fuel ran out;
    [read_stream_total] shows this never arises). *)
Inductive Result (A : Type) : Type :=
| Ok (a : A)
| Thrown (message : jsstring)
| Unfinished.
Arguments Ok {A} a.
Arguments Thrown {A} message.
Arguments Unfinished {A}.

(** An effectful computation: the events it emitted, in order, and its
    result. *)
Definition Eff (A : Type) : Type := (list Event * Result A)%type.

Definition ret {A} (a : A) : Eff A := ([], Ok a).
Definition emit (e : Event) : Eff unit := ([e], Ok tt).
Definition throw {A} (message : jsstring) : Eff A := ([], Thrown message).
Definition bind {A B} (m : Eff A) (k : A -> Eff B) : Eff B :=
  match m with
  | (es, Ok a) => let (es', r) := k a in (es ++ es', r)
  | (es, Thrown message) => (es, Thrown message)
  | (es, Unfinished) => (es, Unfinished)
  end.

Notation "x <- m ;; k" := (bind m (fun x => k))
  (at level 61, m at next level, right associativity).
Notation "m ;; k" := (bind m (fun _ => k))
  (at level 61, right associativity).

(** [try { body } catch (error) { handler } finally { last }] *)
Definition try_catch_finally (body : Eff unit)
           (handler : jsstring -> Eff unit) (last : Eff unit) : Eff unit :=
  match body with
  | (es, Ok tt) => let (es', r) := last in (es ++ es', r)
  | (es, Thrown message) =>
      let (es', r) := (handler message ;; last) in (es ++ es', r)
  | (es, Unfinished) => (es, Unfinished)
  end.

(** [if (id)] on a conversation identifier: [undefined], [null] and the
    empty string are falsy. *)
Definition truthy (v : option jsstring) : bool :=
  match v with
  | Some (_ :: _) => true
  | _ => false
  end.

(** How the stream of the response body ends: [reader.read()] reports
    [done], or rejects. *)
Inductive BodyEnd : Type :=
| done
| read_rejects (message : jsstring).

(** What [fetch] gives back. *)
Inductive Response : Type :=
| fetch_rejects (message : jsstring)
| response_unusable                   (* [!response.ok || !response.body] *)
| response_body (chunks : list jsstring) (ending : BodyEnd).

(** The collaborators' answers during one turn: the signed-in user's id if
    any, the [id] of the inserted conversation row or an error ([None]),
    whether a message insert succeeds, and the completion response. *)
Record World : Type := mkWorld {
  auth_user : option jsstring;
  conversation_insert : jsstring -> jsstring -> option jsstring;
  message_insert : jsstring -> Role -> jsstring -> bool;
  response : Response
}.

(** The component's React state as one render sees it, and whether the
    parent passed the [onConversationCreated] callback. *)
Record Component : Type := mkComponent {
  messages : list Message;
  input : jsstring;
  isLoading : bool;
  currentConvId : option jsstring;
  has_onConversationCreated : bool
}.

Definition sign_in_notice : jsstring := js "Please sign in to save conversations".

(** The [title] of the row [createConversation] inserts. *)
Definition title (firstMessage : jsstring) : jsstring :=
  substring0 50 firstMessage
  ++ (if 50 <? length firstMessage then js "..." else []).

Section Turn.
Variable h : Host.
Variable w : World.
Variable c : Component.

Definition createConversation (firstMessage : jsstring)
  : Eff (option jsstring) :=
  match auth_user w with
  | None =>
      emit (toast_error sign_in_notice) ;;
      ret None
  | Some user_id =>
      emit (insert_conversation user_id (title firstMessage)) ;;
      match conversation_insert w user_id (title firstMessage) with
      | None =>
          emit (console_error (js "Error creating conversation:")) ;;
          ret None
      | Some id =>
          emit (setCurrentConvId id) ;;
          (if has_onConversationCreated c
           then emit (onConversationCreated id) else ret tt) ;;
          ret (Some id)
      end
  end.

Definition saveMessage (convId : jsstring) (r : Role) (text : jsstring)
  : Eff unit :=
  emit (insert_message convId r text) ;;
  if message_insert w convId r text then ret tt
  else emit (console_error (js "Error saving message:")).

(** [if (convId && guard) { await k(convId) }] *)
Definition when_id (convId : option jsstring) (guard : bool)
           (k : jsstring -> Eff unit) : Eff unit :=
  match convId with
  | Some id => if truthy convId && guard then k id else ret tt
  | None => ret tt
  end.

(** The two loops as part of the turn: each snapshot is a [setMessages]
    call; a rejected read throws out of the loop. *)
Definition stream (newMessages : list Message) (chunks : list jsstring)
           (ending : BodyEnd) : Eff Loop :=
  match read_stream h chunks loop_start with
  | None => ([], Unfinished)
  | Some s =>
      (map (fun text => setMessages (newMessages ++ [mkMessage assistant text]))
           (snapshots s),
       match ending with
       | done => Ok s
       | read_rejects message => Thrown message
       end)
  end.

Definition handleSend : Eff unit :=
  if streqb (trim (input c)) [] || isLoading c then ret tt
  else
    let userMessage := trim (input c) in
    emit (setInput []) ;;
    let newMessages := messages c ++ [mkMessage user userMessage] in
    emit (setMessages newMessages) ;;
    emit (setIsLoading true) ;;
    try_catch_finally
      (convId <- (if truthy (currentConvId c) then ret (currentConvId c)
                  else createConversation userMessage) ;;
       when_id convId true (fun id => saveMessage id user userMessage) ;;
       emit (fetch_legal_chat newMessages) ;;
       match response w with
       | fetch_rejects message => throw message
       | response_unusable => throw (js "Failed to get response")
       | response_body chunks ending =>
           s <- stream newMessages chunks ending ;;
           when_id convId (negb (streqb (assistantMessage s) []))
                   (fun id => saveMessage id assistant (assistantMessage s))
       end)
      (fun message =>
         emit (console_error (js "Chat error:")) ;;
         emit (toast_error (if streqb message []
                            then js "Failed to get response" else message)))
      (emit (setIsLoading false)).
End Turn.

(** The state the next render sees once the setters have taken effect. *)
Definition apply_event (c : Component) (e : Event) : Component :=
  match e with
  | setMessages ms =>
      mkComponent ms (input c) (isLoading c) (currentConvId c)
                  (has_onConversationCreated c)
  | setInput text =>
      mkComponent (messages c) text (isLoading c) (currentConvId c)
                  (has_onConversationCreated c)
  | setIsLoading b =>
      mkComponent (messages c) (input c) b (currentConvId c)
                  (has_onConversationCreated c)
  | setCurrentConvId id =>
      mkComponent (messages c) (input c) (isLoading c) (Some id)
                  (has_onConversationCreated c)
  | _ => c
  end.

Definition rerender (c : Component) (es : list Event) : Component :=
  fold_left apply_event es c.

(** A chat session: for each turn the user types a text (the textarea's
    [onChange] sets [input]) and sends it, against that turn's world. *)
Fixpoint session (h : Host) (c : Component) (turns : list (jsstring * World))
  : list Event :=
  match turns with
  | [] => []
  | (typed, w) :: rest =>
      let c1 := apply_event c (setInput typed) in
      let es := fst (handleSend h w c1) in
      es ++ session h (rerender c1 es) rest
  end.

(** A fresh panel with no conversation selected. *)
Definition fresh : Component := mkComponent [] [] false None false.

(* ================================================================== *)
(** ** What the text of a stream holds, by the spec's words *)

(** The complete lines of a text, split on the line feed, and the
    unterminated remainder after the last line feed. *)
Fixpoint split_lines (text : jsstring) : list jsstring * jsstring :=
  match text with
  | [] => ([], [])
  | x :: r =>
      let (ls, rem) := split_lines r in
      if N.eqb x LF then ([] :: ls, rem)
      else match ls with
           | [] => ([], x :: rem)
           | l :: ls' => ((x :: l) :: ls', rem)
           end
  end.

Definition complete_lines (text : jsstring) : list jsstring :=
  fst (split_lines text).
Definition remainder (text : jsstring) : jsstring := snd (split_lines text).

(** One trailing carriage return stripped. *)
Definition strip_cr (l : jsstring) : jsstring :=
  if endsWith CR l then slice_drop_last l else l.

(** What the frame parser makes of a line the reader hands it. *)
Inductive Verdict : Type :=
| ignored                      (* blank, comment or not a data field *)
| sentinel                     (* the payload is [DONE] *)
| anomaly                      (* the [try] block threw *)
| no_delta                     (* [content] is falsy *)
| delta (text : jsstring).     (* [text] is appended *)

Definition verdict (h : Host) (line : jsstring) : Verdict :=
  if startsWith (js ":") line || streqb (trim line) [] then ignored
  else if negb (startsWith (js "data: ") line) then ignored
  else
    let jsonStr := trim (slice_from 6 line) in
    if streqb jsonStr (js "[DONE]") then sentinel
    else match try_block h jsonStr with
         | threw => anomaly
         | falsy => no_delta
         | appended text => delta text
         end.

(** A line at which the inner loop breaks. *)
Definition stops (h : Host) (line : jsstring) : bool :=
  match verdict h line with
  | sentinel | anomaly => true
  | _ => false
  end.

(** The accumulator and the snapshots after the lines [ls] are assembled in
    order. *)
Fixpoint assemble (h : Host) (ls : list jsstring)
         (acc : jsstring) (snaps : list jsstring) : jsstring * list jsstring :=
  match ls with
  | [] => (acc, snaps)
  | l :: r =>
      match verdict h l with
      | delta d => assemble h r (acc ++ d) (snaps ++ [acc ++ d])
      | _ => assemble h r acc snaps
      end
  end.

(** Lines the loops read through without losing one: none before the last
    stops the inner loop, and the last stops it only as the sentinel. *)
Fixpoint read_through (h : Host) (ls : list jsstring) : Prop :=
  match ls with
  | [] => True
  | [l] => verdict h l <> anomaly
  | l :: r => stops h l = false /\ read_through h r
  end.

(** The text of a data line with the given payload. *)
Definition data_line (payload : jsstring) : jsstring :=
  js "data: " ++ payload ++ [LF].

(** A payload that carries the content delta [d]: it sits on one line, is
    not the sentinel, parses, and the first choice's delta content is the
    non-empty string [d]. *)
Definition carries (h : Host) (payload d : jsstring) : Prop :=
  ~ In LF payload /\
  trim payload <> js "[DONE]" /\
  d <> [] /\
  exists parsed,
    JSON_parse h (trim payload) = Some parsed /\
    delta_content parsed = Some (Some (JString d)).

(** The message lists a turn displays, one per [setMessages] call. *)
Fixpoint displayed (es : list Event) : list (list Message) :=
  match es with
  | [] => []
  | setMessages ms :: r => ms :: displayed r
  | _ :: r => displayed r
  end.

(** The error notifications a turn shows, the message rows it writes, and
    the conversation rows it writes. *)
Fixpoint toasts (es : list Event) : list jsstring :=
  match es with
  | [] => []
  | toast_error m :: r => m :: toasts r
  | _ :: r => toasts r
  end.

Fixpoint saved (es : list Event) : list (jsstring * Role * jsstring) :=
  match es with
  | [] => []
  | insert_message id r text :: rest => (id, r, text) :: saved rest
  | _ :: rest => saved rest
  end.

Fixpoint created (es : list Event) : list (jsstring * jsstring) :=
  match es with
  | [] => []
  | insert_conversation uid t :: rest => (uid, t) :: created rest
  | _ :: rest => created rest
  end.

(** The row a guarded save writes. *)
Definition rows_if (convId : option jsstring) (guard : bool)
           (r : Role) (text : jsstring) : list (jsstring * Role * jsstring) :=
  match convId with
  | Some id => if truthy convId && guard then [(id, r, text)] else []
  | None => []
  end.

(** How often the sign-in notice is shown. *)
Definition is_sign_in_notice (e : Event) : bool :=
  match e with
  | toast_error m => streqb m sign_in_notice
  | _ => false
  end.
Definition notices (es : list Event) : nat :=
  length (filter is_sign_in_notice es).

(* ================================================================== *)
(** ** Definitions used by the statements *)

(** What the body does with the line [line] when [rest] follows it in the
    buffer. *)
Definition line_step (h : Host) (line rest : jsstring) (s : Loop) : Flow :=
  let read := lines s ++ [line] in
  match verdict h line with
  | ignored | no_delta =>
      Continue (mkLoop rest (assistantMessage s) (snapshots s) read)
  | sentinel =>
      Break (mkLoop rest (assistantMessage s) (snapshots s) read)
  | anomaly =>
      Break (mkLoop (line ++ LF :: rest) (assistantMessage s)
                    (snapshots s) read)
  | delta d =>
      Continue (mkLoop rest (assistantMessage s ++ d)
                       (snapshots s ++ [assistantMessage s ++ d]) read)
  end.

(** The text on display is the accumulated message. *)
Definition in_step (s : Loop) : Prop :=
  assistantMessage s = last (snapshots s) [].

(** The conversation phase, lines 115 to 118 of the component. *)
Definition ensure (w : World) (c : Component) (userMessage : jsstring)
  : Eff (option jsstring) :=
  if truthy (currentConvId c) then ret (currentConvId c)
  else createConversation w c userMessage.

(** A frame of the completion stream whose content delta is [d] (plain
    ASCII without quote or backslash), as the endpoint writes it. *)
Definition delta_frame (d : string) : jsstring :=
  jsq "{'choices':[{'delta':{'content':'" ++ js d ++ jsq "'}}]}".

(** The claim of chunk-boundary invariance for every text: any two ways of
    cutting one text into chunks make the reader hand the same lines to the
    frame parser. *)
Definition chunk_boundary_invariance : Prop :=
  forall (h : Host) (text : jsstring) (chunks1 chunks2 : list jsstring)
         (s1 s2 : Loop),
    concat chunks1 = text -> concat chunks2 = text ->
    read_stream h chunks1 loop_start = Some s1 ->
    read_stream h chunks2 loop_start = Some s2 ->
    lines s1 = lines s2.

(** A comment, a delta line ending in carriage return and line feed, a
    blank line, two more lines, the sentinel and an unterminated tail, cut
    inside lines. *)
Definition sample_text : jsstring :=
  js ": keep-alive" ++ [LF] ++ js "data: " ++ delta_frame "Hi"
  ++ [CR; LF; LF] ++ js "event: ping" ++ [LF] ++ js "data: {}"
  ++ [LF] ++ js "data: [DONE]" ++ [LF] ++ js "data: tail".

(** A signed-in user whose inserts succeed. *)
Definition signed_in : World :=
  mkWorld (Some (js "u1")) (fun _ _ => Some (js "c1")) (fun _ _ _ => true)
          (response_body [] done).


(** A signed-in user, a stream of comments, an empty delta and the
    sentinel. *)
Definition signed_in_no_delta : World :=
  mkWorld (Some (js "u1")) (fun _ _ => Some (js "c1")) (fun _ _ _ => true)
          (response_body
             [js ": ping" ++ [LF] ++ js "data: " ++ delta_frame "" ++ [LF];
              js "data: [DONE]" ++ [LF]]
             done).

(** A signed-in user all of whose message inserts fail. *)
Definition failing_store : World :=
  mkWorld (Some (js "u1")) (fun _ _ => Some (js "c1")) (fun _ _ _ => false)
          (response_body
             [js "data: " ++ delta_frame "You have " ++ [LF];
              js "data: " ++ delta_frame "the right to remain silent." ++ [LF]
                 ++ js "data: [DONE]" ++ [LF]]
             done).

(** The claim that a user without a principal is informed once: over a
    chat session in which no principal is ever authenticated, the sign-in
    notice is shown at most once. *)
Definition informed_once : Prop :=
  forall (h : Host) (c : Component) (turns : list (jsstring * World)),
    Forall (fun t => auth_user (snd t) = None) turns ->
    notices (session h c turns) <= 1.

(** A world without a principal, whose stream holds one delta. *)
Definition signed_out : World :=
  mkWorld None (fun _ _ => None) (fun _ _ _ => false)
          (response_body
             [js "data: " ++ delta_frame "Hi" ++ [LF] ++ js "data: [DONE]"
                 ++ [LF]]
             done).

(* ================================================================== *)
(** ** Loading a stored conversation *)

(** A row of [chat_messages] as [select('*')] returns it.  The table's
    check constraint keeps [role] within the two roles. *)
Record Row : Type := mkRow {
  row_id : jsstring;
  row_conversation_id : jsstring;
  row_role : Role;
  row_content : jsstring;
  row_created_at : jsstring
}.

(** What the ordered select of [loadConversation] answers: an error, or
    [data], which may be [null]. *)
Inductive Selected : Type :=
| select_error (message : jsstring)
| select_data (data : option (list Row)).

(** [try { body } catch (error) { handler }] *)
Definition try_catch (body : Eff unit) (handler : jsstring -> Eff unit)
  : Eff unit :=
  match body with
  | (es, Ok tt) => (es, Ok tt)
  | (es, Thrown message) =>
      let (es', r) := handler message in (es ++ es', r)
  | (es, Unfinished) => (es, Unfinished)
  end.

Definition loadConversation (answer : Selected) : Eff unit :=
  try_catch
    (match answer with
     | select_error message => throw message
     | select_data (Some data) =>
         emit (setMessages
                 (map (fun msg => mkMessage (row_role msg) (row_content msg))
                      data))
     | select_data None => ret tt
     end)
    (fun _ =>
       emit (console_error (js "Error loading conversation:")) ;;
       emit (toast_error (js "Failed to load conversation"))).

(* ================================================================== *)
(** ** Definitions used by the further statements *)

(** The two events of the [catch] block of [handleSend]. *)
Definition failure_events (message : jsstring) : list Event :=
  [console_error (js "Chat error:");
   toast_error (if streqb message [] then js "Failed to get response"
                else message)].

(** The [setMessages] calls of the stream loop. *)
Definition shown (nm : list Message) (snaps : list jsstring) : list Event :=
  map (fun text => setMessages (nm ++ [mkMessage assistant text])) snaps.

(** What a turn does between its request and its [finally] block, for the
    conversation id [convId] it works with and the message list
    [newMessages] it sent. *)
Definition after_request (h : Host) (w : World) (newMessages : list Message)
           (convId : option jsstring) : list Event :=
  match response w with
  | fetch_rejects message => failure_events message
  | response_unusable => failure_events (js "Failed to get response")
  | response_body chunks ending =>
      match read_stream h chunks loop_start with
      | None => []
      | Some s =>
          shown newMessages (snapshots s)
          ++ match ending with
             | done =>
                 fst (when_id convId (negb (streqb (assistantMessage s) []))
                        (fun id => saveMessage w id assistant
                                               (assistantMessage s)))
             | read_rejects message => failure_events message
             end
      end
  end.

(** Each text extends the one before it, starting from [prev]. *)
Fixpoint chain (prev : jsstring) (l : list jsstring) : Prop :=
  match l with
  | [] => True
  | x :: r => (exists d, x = prev ++ d) /\ chain x r
  end.

(** What a run adds to the display: snapshots that each extend the one
    before, the last of which is the accumulated message. *)
Definition grown (s s' : Loop) : Prop :=
  exists added,
    snapshots s' = snapshots s ++ added /\
    chain (assistantMessage s) added /\
    assistantMessage s' = last added (assistantMessage s).

(** The requests a turn sends, the conversation ids it sets, the loading
    flags it sets and the input texts it sets. *)
Fixpoint requests (es : list Event) : list (list Message) :=
  match es with
  | [] => []
  | fetch_legal_chat ms :: r => ms :: requests r
  | _ :: r => requests r
  end.

Fixpoint conv_ids (es : list Event) : list (option jsstring) :=
  match es with
  | [] => []
  | setCurrentConvId id :: r => Some id :: conv_ids r
  | _ :: r => conv_ids r
  end.

Fixpoint loading_flags (es : list Event) : list bool :=
  match es with
  | [] => []
  | setIsLoading b :: r => b :: loading_flags r
  | _ :: r => loading_flags r
  end.

Fixpoint inputs (es : list Event) : list jsstring :=
  match es with
  | [] => []
  | setInput text :: r => text :: inputs r
  | _ :: r => inputs r
  end.

(** The message a stored row shows as. *)
Definition row_message (row : jsstring * Role * jsstring) : Message :=
  mkMessage (snd (fst row)) (snd row).

(** The row of [chat_messages] that an insert of the turn creates, with the
    columns the store fills in. *)
Definition stored_row (row : jsstring * Role * jsstring) : Row :=
  mkRow [] (fst (fst row)) (snd (fst row)) (snd row) [].

(** The rows of a turn's message inserts that the store accepted, as rows
    of [chat_messages] in the order of their creation. *)
Definition kept (w : World) (es : list Event) : list Row :=
  map stored_row
      (filter (fun row => message_insert w (fst (fst row)) (snd (fst row))
                                         (snd row))
              (saved es)).

(** A turn in which a signed-in user's conversation insert answers a
    non-empty id. *)
Definition conversation_granted (typed : jsstring) (w : World) : Prop :=
  trim typed <> [] /\
  (exists uid, auth_user w = Some uid) /\
  forall uid t, truthy (conversation_insert w uid t) = true.

(** A signed-in user whose stream stops with a rejected read after one
    delta. *)
Definition interrupted : World :=
  mkWorld (Some (js "u1")) (fun _ _ => Some (js "c1")) (fun _ _ _ => true)
          (response_body
             [js "data: " ++ delta_frame "You have " ++ [LF]]
             (read_rejects (js "network error"))).

(** A signed-in user whose request is answered with a failure status. *)
Definition refused : World :=
  mkWorld (Some (js "u1")) (fun _ _ => Some (js "c1")) (fun _ _ _ => true)
          response_unusable.

(** A signed-in user whose conversation insert fails. *)
Definition no_conversation : World :=
  mkWorld (Some (js "u1")) (fun _ _ => None) (fun _ _ _ => true)
          (response_body
             [js "data: " ++ delta_frame "Hi" ++ [LF] ++ js "data: [DONE]"
                 ++ [LF]]
             done).

(** A signed-in user with a stream of one delta. *)
Definition signed_in_hi : World :=
  mkWorld (Some (js "u1")) (fun _ _ => Some (js "c1")) (fun _ _ _ => true)
          (response_body
             [js "data: " ++ delta_frame "Hi" ++ [LF] ++ js "data: [DONE]"
                 ++ [LF]]
             done).

(* ================================================================== *)
(** ** The claims that fail, as propositions *)


(** The claim that without a principal the persistence of messages is
    skipped entirely: over a chat session in which no principal is ever
    authenticated, no message insert is made. *)
Definition persistence_skipped : Prop :=
  forall (h : Host) (c : Component) (turns : list (jsstring * World)),
    Forall (fun t => auth_user (snd t) = None) turns ->
    saved (session h c turns) = [].

(** A signed-in user whose stream holds the sentinel and, in a later
    chunk, a delta. *)
Definition sentinel_then_delta : World :=
  mkWorld (Some (js "u1")) (fun _ _ => Some (js "c1")) (fun _ _ _ => true)
          (response_body
             [js "data: [DONE]" ++ [LF];
              js "data: " ++ delta_frame "X" ++ [LF]]
             done).

(* ================================================================== *)
(** ** Strings: basic facts *)

Lemma streqb_eq (a b : jsstring) : streqb a b = true <-> a = b.
Proof.
  revert b; induction a as [|x a IH]; intros [|y b]; simpl;
    try (split; (discriminate || reflexivity)).
  rewrite andb_true_iff, N.eqb_eq, IH.
  split; [intros [-> ->]; reflexivity | intros [= -> ->]; auto].
Qed.

Lemma streqb_neq (a b : jsstring) : streqb a b = false <-> a <> b.
Proof.
  rewrite <- streqb_eq. destruct (streqb a b); split; congruence.
Qed.

Lemma streqb_refl (a : jsstring) : streqb a a = true.
Proof. apply streqb_eq; reflexivity. Qed.

Lemma indexOf_here (c : code_unit) (l r : jsstring) :
  ~ In c l -> indexOf c (l ++ c :: r) = Some (length l).
Proof.
  induction l as [|x l IH]; simpl; intros Hn.
  - rewrite N.eqb_refl; reflexivity.
  - destruct (N.eqb_spec x c) as [->|_]; [exfalso; auto|].
    rewrite IH by auto. reflexivity.
Qed.

Lemma indexOf_none (c : code_unit) (s : jsstring) :
  ~ In c s -> indexOf c s = None.
Proof.
  induction s as [|x s IH]; simpl; intros Hn; [reflexivity|].
  destruct (N.eqb_spec x c) as [->|_]; [exfalso; auto|].
  rewrite IH by auto. reflexivity.
Qed.

Lemma indexOf_some (c : code_unit) (s : jsstring) (i : nat) :
  indexOf c s = Some i ->
  exists l r, s = l ++ c :: r /\ ~ In c l /\ length l = i.
Proof.
  revert i; induction s as [|x s IH]; simpl; intros i H; [discriminate|].
  destruct (N.eqb_spec x c) as [->|Hne].
  - injection H as <-. exists [], s. simpl; auto.
  - destruct (indexOf c s) as [j|]; [|discriminate].
    injection H as <-.
    destruct (IH j eq_refl) as (l & r & -> & Hn & Hl).
    exists (x :: l), r. simpl. repeat split; auto.
    intros [E|E]; auto.
Qed.

Lemma slice_line (l r : jsstring) (c : code_unit) :
  slice 0 (length l) (l ++ c :: r) = l.
Proof.
  unfold slice. rewrite Nat.sub_0_r. simpl.
  rewrite firstn_app, Nat.sub_diag, firstn_all. simpl. apply app_nil_r.
Qed.

Lemma slice_rest (l r : jsstring) (c : code_unit) :
  slice_from (length l + 1) (l ++ c :: r) = r.
Proof.
  unfold slice_from. rewrite skipn_app.
  rewrite skipn_all2 by lia.
  replace (length l + 1 - length l) with 1 by lia. reflexivity.
Qed.

Lemma startsWith_app (p r : jsstring) : startsWith p (p ++ r) = true.
Proof.
  induction p as [|x p IH]; simpl; [destruct r; reflexivity|].
  rewrite N.eqb_refl. exact IH.
Qed.

Lemma startsWith_split (p s : jsstring) :
  startsWith p s = true -> exists r, s = p ++ r.
Proof.
  revert s; induction p as [|x p IH]; intros s H.
  - exists s; reflexivity.
  - destruct s as [|y s]; [discriminate|]. simpl in H.
    apply andb_true_iff in H as [E H]. apply N.eqb_eq in E as ->.
    destruct (IH s H) as [r ->]. exists r; reflexivity.
Qed.

Lemma trimStart_keeps (s : jsstring) :
  (exists x, In x s /\ is_space x = false) -> trimStart s <> [].
Proof.
  induction s as [|c s IH]; intros (x & Hin & Hx); [destruct Hin|].
  simpl. destruct (is_space c) eqn:E; [|discriminate].
  destruct Hin as [->|Hin]; [congruence|]. apply IH; eauto.
Qed.

Lemma trimStart_space_end (s : jsstring) (c : code_unit) :
  is_space c = true ->
  trimStart (s ++ [c]) = match trimStart s with
                         | [] => []
                         | t => t ++ [c]
                         end.
Proof.
  intros Hc. induction s as [|x s IH]; simpl.
  - rewrite Hc; reflexivity.
  - destruct (is_space x); [exact IH | reflexivity].
Qed.

Lemma trim_space_end (s : jsstring) (c : code_unit) :
  is_space c = true -> trim (s ++ [c]) = trim s.
Proof.
  intros Hc. unfold trim, trimEnd.
  rewrite (trimStart_space_end s c Hc).
  destruct (trimStart s) as [|y t] eqn:E; [reflexivity|].
  rewrite rev_app_distr. simpl rev at 1. simpl app.
  cbn [trimStart]. rewrite Hc. reflexivity.
Qed.

Lemma trim_nonempty (s : jsstring) (x : code_unit) :
  is_space x = false -> trim (x :: s) <> [].
Proof.
  intros Hx. unfold trim, trimEnd. simpl trimStart at 2. rewrite Hx.
  intros E. apply (f_equal (@rev _)) in E. rewrite rev_involutive in E.
  revert E. apply trimStart_keeps. exists x. split; [|exact Hx].
  apply in_rev. rewrite rev_involutive. left; reflexivity.
Qed.

(* ================================================================== *)
(** ** Lines of a text *)

Lemma split_lines_nolf (l : jsstring) : ~ In LF l -> split_lines l = ([], l).
Proof.
  induction l as [|x l IH]; simpl; intros Hn; [reflexivity|].
  rewrite IH by auto.
  destruct (N.eqb_spec x LF) as [->|_]; [exfalso; auto | reflexivity].
Qed.

Lemma split_lines_line (l r : jsstring) :
  ~ In LF l ->
  split_lines (l ++ LF :: r) = (l :: complete_lines r, remainder r).
Proof.
  unfold complete_lines, remainder.
  induction l as [|x l IH]; simpl; intros Hn.
  - destruct (split_lines r); reflexivity.
  - rewrite IH by auto.
    destruct (N.eqb_spec x LF) as [->|_]; [exfalso; auto | reflexivity].
Qed.

Lemma split_lines_cases (text : jsstring) :
  (~ In LF text /\ split_lines text = ([], text)) \/
  (exists l r, text = l ++ LF :: r /\ ~ In LF l /\
               split_lines text = (l :: complete_lines r, remainder r)).
Proof.
  destruct (indexOf LF text) as [i|] eqn:E.
  - right. destruct (indexOf_some _ _ _ E) as (l & r & -> & Hn & _).
    exists l, r. auto using split_lines_line.
  - left. assert (Hn : ~ In LF text).
    { intros Hin. apply in_split in Hin as (a & b & ->).
      clear -E. induction a as [|x a IH]; simpl in E.
      - discriminate.
      - destruct (N.eqb x LF); [discriminate|].
        destruct (indexOf LF (a ++ LF :: b)); [discriminate | auto]. }
    auto using split_lines_nolf.
Qed.

Lemma complete_lines_nil (text : jsstring) :
  complete_lines text = [] -> remainder text = text /\ ~ In LF text.
Proof.
  unfold complete_lines, remainder.
  destruct (split_lines_cases text) as [[Hn ->]|(l & r & _ & _ & ->)];
    simpl; [auto | discriminate].
Qed.

Lemma split_lines_app (a b : jsstring) :
  complete_lines (a ++ b)
  = complete_lines a ++ complete_lines (remainder a ++ b)
  /\ remainder (a ++ b) = remainder (remainder a ++ b).
Proof.
  induction a as [|x a [IHc IHr]]; [split; reflexivity|].
  unfold complete_lines, remainder in *. simpl.
  destruct (split_lines (a ++ b)) as [lsab remab] eqn:Eab.
  destruct (split_lines a) as [lsa rema] eqn:Ea.
  simpl in IHc, IHr. subst lsab remab.
  destruct (N.eqb_spec x LF) as [->|Hx]; simpl; [auto|].
  destruct lsa as [|l lsa]; simpl.
  - assert (Hrem : rema = a).
    { generalize (complete_lines_nil a). unfold complete_lines, remainder.
      rewrite Ea. simpl. intros H; apply H; reflexivity. }
    subst rema. rewrite Eab. simpl.
    destruct (N.eqb_spec x LF); [contradiction|].
    destruct (fst (split_lines (a ++ b))); auto.
  - auto.
Qed.

Lemma complete_lines_app (a b : jsstring) :
  complete_lines (a ++ b)
  = complete_lines a ++ complete_lines (remainder a ++ b).
Proof. apply split_lines_app. Qed.

Lemma remainder_app (a b : jsstring) :
  remainder (a ++ b) = remainder (remainder a ++ b).
Proof. apply split_lines_app. Qed.

Lemma complete_lines_remainder (text : jsstring) :
  complete_lines (remainder text) = [].
Proof.
  unfold complete_lines, remainder.
  induction text as [|x text IH]; [reflexivity|]. simpl.
  destruct (split_lines text) as [ls rem] eqn:E. simpl in IH.
  destruct (N.eqb_spec x LF) as [->|Hx]; [exact IH|].
  destruct ls as [|l ls]; [|exact IH].
  simpl. destruct (split_lines rem) as [ls' rem'] eqn:E'. simpl in IH.
  subst ls'. destruct (N.eqb_spec x LF); [contradiction | reflexivity].
Qed.

Lemma complete_lines_length (text : jsstring) :
  length (complete_lines text) <= length text.
Proof.
  unfold complete_lines.
  induction text as [|x text IH]; simpl; [lia|].
  destruct (split_lines text) as [ls rem]. simpl in IH.
  destruct (N.eqb x LF); simpl; [lia|].
  destruct ls; simpl in *; lia.
Qed.

Lemma complete_lines_concat (ls : list jsstring) (tail : jsstring) :
  Forall (fun l => ~ In LF l) ls ->
  complete_lines (concat (map (fun l => l ++ [LF]) ls) ++ tail)
  = ls ++ complete_lines tail
  /\ remainder (concat (map (fun l => l ++ [LF]) ls) ++ tail)
     = remainder tail.
Proof.
  induction 1 as [|l ls Hl _ [IHc IHr]]; [split; reflexivity|].
  simpl. rewrite <- !app_assoc. simpl.
  unfold complete_lines, remainder in *.
  rewrite split_lines_line by exact Hl. simpl.
  unfold complete_lines, remainder. rewrite IHc, IHr. auto.
Qed.

(* ================================================================== *)
(** ** The inner loop, line by line *)

Section LoopFacts.
Variable h : Host.

Lemma loop_body_line (l rest : jsstring) (s : Loop) :
  textBuffer s = l ++ LF :: rest ->
  loop_body h (length l) s = line_step h (strip_cr l) rest s.
Proof.
  intros HB. unfold loop_body, line_step, verdict.
  rewrite HB, slice_line, slice_rest. fold (strip_cr l).
  destruct (startsWith (js ":") (strip_cr l) || streqb (trim (strip_cr l)) []);
    [reflexivity|].
  destruct (startsWith (js "data: ") (strip_cr l)); [|reflexivity]. simpl negb.
  cbv iota.
  destruct (streqb (trim (slice_from 6 (strip_cr l))) (js "[DONE]"));
    [reflexivity|].
  destruct (try_block h (trim (slice_from 6 (strip_cr l)))); reflexivity.
Qed.

(** A pass that continues leaves a shorter buffer. *)
Lemma loop_body_shrinks (i : nat) (s s' : Loop) :
  indexOf LF (textBuffer s) = Some i ->
  loop_body h i s = Continue s' ->
  length (textBuffer s') < length (textBuffer s).
Proof.
  intros Hi Hb.
  destruct (indexOf_some _ _ _ Hi) as (l & r & HB & _ & <-).
  rewrite (loop_body_line l r s HB) in Hb. unfold line_step in Hb.
  rewrite HB, length_app. simpl.
  destruct (verdict h (strip_cr l)); inversion Hb; subst; simpl; lia.
Qed.

Lemma read_lines_total (fuel : nat) (s : Loop) :
  length (textBuffer s) < fuel -> exists s', read_lines h fuel s = Some s'.
Proof.
  revert s; induction fuel as [|fuel IH]; intros s Hf; [lia|].
  simpl. destruct (indexOf LF (textBuffer s)) as [i|] eqn:Hi; [|eauto].
  destruct (loop_body h i s) as [s'|s'] eqn:Hb; [|eauto].
  apply IH. pose proof (loop_body_shrinks i s s' Hi Hb). lia.
Qed.

(** More fuel than needed changes nothing. *)
Lemma read_lines_fuel (fuel fuel' : nat) (s s' : Loop) :
  read_lines h fuel s = Some s' -> fuel <= fuel' ->
  read_lines h fuel' s = Some s'.
Proof.
  revert fuel' s; induction fuel as [|fuel IH]; intros fuel' s H Hle;
    [discriminate|].
  destruct fuel' as [|fuel']; [lia|]. simpl in *.
  destruct (indexOf LF (textBuffer s)); [|exact H].
  destruct (loop_body h n s); [|exact H].
  apply IH; [exact H | lia].
Qed.

Lemma read_stream_total (chunks : list jsstring) (s : Loop) :
  exists s', read_stream h chunks s = Some s'.
Proof.
  revert s; induction chunks as [|value chunks IH]; intros s; simpl; [eauto|].
  unfold on_chunk. cbv zeta. cbn [textBuffer].
  destruct (read_lines_total
              (S (length (textBuffer s ++ value)))
              (mkLoop (textBuffer s ++ value) (assistantMessage s)
                      (snapshots s) (lines s))) as [s' ->];
    [simpl; lia|].
  apply IH.
Qed.

(** *** Lines that are read through *)

Lemma assemble_app (xs ys : list jsstring) (acc : jsstring)
      (snaps : list jsstring) :
  assemble h (xs ++ ys) acc snaps
  = assemble h ys (fst (assemble h xs acc snaps))
             (snd (assemble h xs acc snaps)).
Proof.
  revert acc snaps; induction xs as [|x xs IH]; intros; simpl; [reflexivity|].
  destruct (verdict h x); apply IH.
Qed.

Lemma read_through_cons (l : jsstring) (ls : list jsstring) :
  read_through h (l :: ls) ->
  verdict h l <> anomaly /\ (ls <> [] -> stops h l = false)
  /\ read_through h ls.
Proof.
  destruct ls as [|l' ls]; simpl.
  - intros H. repeat split; auto. congruence.
  - intros [H1 H2]. repeat split; auto.
    unfold stops in H1. intros E. rewrite E in H1. discriminate.
Qed.

Lemma read_through_app (xs ys : list jsstring) :
  read_through h (xs ++ ys) -> read_through h xs /\ read_through h ys.
Proof.
  induction xs as [|x xs IH]; [simpl; auto|].
  intros H. change ((x :: xs) ++ ys) with (x :: (xs ++ ys)) in H.
  apply read_through_cons in H as (Hx & Hs & Hr).
  destruct (IH Hr) as [IH1 IH2]. split; [|exact IH2].
  destruct xs as [|x' xs]; [exact Hx|].
  split; [apply Hs; discriminate | exact IH1].
Qed.

Lemma read_through_nonstop (ls : list jsstring) :
  Forall (fun l => stops h l = false) ls -> read_through h ls.
Proof.
  induction 1 as [|l ls Hl _ IH]; [exact I|].
  destruct ls as [|l' ls]; [|split; assumption].
  simpl. unfold stops in Hl. intros E. rewrite E in Hl. discriminate.
Qed.

(** The inner loop on a buffer whose complete lines are read through:
    every line is read, the deltas are assembled in order, and the
    unterminated remainder stays in the buffer. *)
Lemma read_lines_read_through (ls : list jsstring) :
  forall (B acc : jsstring) (snaps lns : list jsstring) (fuel : nat),
    complete_lines B = ls ->
    read_through h (map strip_cr ls) ->
    length ls < fuel ->
    read_lines h fuel (mkLoop B acc snaps lns)
    = Some (mkLoop (remainder B)
                   (fst (assemble h (map strip_cr ls) acc snaps))
                   (snd (assemble h (map strip_cr ls) acc snaps))
                   (lns ++ map strip_cr ls)).
Proof.
  induction ls as [|l ls IH]; intros B acc snaps lns fuel HB Hrt Hf.
  - destruct fuel as [|fuel]; [lia|]. simpl.
    destruct (complete_lines_nil B HB) as [-> Hn].
    rewrite (indexOf_none LF B Hn), app_nil_r. reflexivity.
  - destruct fuel as [|fuel]; [simpl in Hf; lia|].
    unfold complete_lines, remainder in *.
    destruct (split_lines_cases B) as [[_ E]|(l0 & r & HBeq & Hn & E)];
      rewrite E in HB; simpl in HB; [discriminate|].
    injection HB as -> Hls. rewrite E. simpl snd.
    cbn [read_lines textBuffer]. rewrite HBeq at 1.
    rewrite (indexOf_here LF l r Hn).
    rewrite (loop_body_line l r (mkLoop B acc snaps lns) HBeq).
    simpl map in Hrt. apply read_through_cons in Hrt as (Hx & Hs & Hr).
    unfold line_step. cbn [lines assistantMessage snapshots map assemble].
    destruct (verdict h (strip_cr l)) eqn:Ev.
    + rewrite (IH r acc snaps (lns ++ [strip_cr l]) fuel Hls Hr)
        by (simpl in Hf; lia).
      rewrite <- app_assoc. reflexivity.
    + destruct ls as [|l' ls].
      * destruct (complete_lines_nil r Hls) as [Hrem _].
        rewrite Hrem. reflexivity.
      * unfold stops in Hs. rewrite Ev in Hs.
        specialize (Hs ltac:(discriminate)). discriminate.
    + contradiction.
    + rewrite (IH r acc snaps (lns ++ [strip_cr l]) fuel Hls Hr)
        by (simpl in Hf; lia).
      rewrite <- app_assoc. reflexivity.
    + rewrite (IH r (acc ++ text) (snaps ++ [acc ++ text])
                  (lns ++ [strip_cr l]) fuel Hls Hr)
        by (simpl in Hf; lia).
      rewrite <- app_assoc. reflexivity.
Qed.

(** The same for the whole stream, whatever the chunk boundaries. *)
Lemma read_stream_read_through (chunks : list jsstring) :
  forall (B acc : jsstring) (snaps lns : list jsstring),
    complete_lines B = [] ->
    read_through h (map strip_cr (complete_lines (B ++ concat chunks))) ->
    read_stream h chunks (mkLoop B acc snaps lns)
    = Some (mkLoop
              (remainder (B ++ concat chunks))
              (fst (assemble h (map strip_cr
                                    (complete_lines (B ++ concat chunks)))
                             acc snaps))
              (snd (assemble h (map strip_cr
                                    (complete_lines (B ++ concat chunks)))
                             acc snaps))
              (lns ++ map strip_cr (complete_lines (B ++ concat chunks)))).
Proof.
  induction chunks as [|value chunks IH]; intros B acc snaps lns HB Hrt.
  - simpl. rewrite !app_nil_r.
    destruct (complete_lines_nil B HB) as [-> _]. rewrite HB. simpl.
    rewrite app_nil_r. reflexivity.
  - cbn [read_stream concat] in Hrt |- *. unfold on_chunk. cbv zeta.
    cbn [textBuffer assistantMessage snapshots lines].
    rewrite app_assoc in Hrt |- *.
    rewrite (complete_lines_app (B ++ value) (concat chunks)) in Hrt |- *.
    rewrite (remainder_app (B ++ value) (concat chunks)).
    rewrite map_app in Hrt |- *.
    apply read_through_app in Hrt as [Hrt1 Hrt2].
    rewrite (read_lines_read_through (complete_lines (B ++ value))
               (B ++ value) acc snaps lns _ eq_refl Hrt1)
      by (pose proof (complete_lines_length (B ++ value)); lia).
    rewrite (IH _ _ _ _ (complete_lines_remainder (B ++ value)) Hrt2).
    rewrite assemble_app, app_assoc. reflexivity.
Qed.
End LoopFacts.

(* ================================================================== *)
(** ** Data lines *)

Lemma strip_cr_trim (p : jsstring) : trim (strip_cr p) = trim p.
Proof.
  unfold strip_cr, endsWith, slice_drop_last.
  destruct (rev p) as [|x t] eqn:E; [reflexivity|].
  destruct (N.eqb_spec x CR) as [->|_]; [|reflexivity].
  assert (Hp : p = rev t ++ [CR]).
  { rewrite <- (rev_involutive p), E. reflexivity. }
  rewrite Hp, removelast_last. symmetry. apply trim_space_end. reflexivity.
Qed.

Lemma strip_cr_data (p : jsstring) :
  strip_cr (js "data: " ++ p) = js "data: " ++ strip_cr p.
Proof.
  destruct p as [|x p]; [reflexivity|].
  unfold strip_cr, endsWith, slice_drop_last.
  rewrite rev_app_distr.
  destruct (rev (x :: p)) as [|y t] eqn:E.
  - apply (f_equal (@rev _)) in E. rewrite rev_involutive in E. discriminate.
  - simpl app at 1. destruct (N.eqb y CR); [|reflexivity].
    apply removelast_app. discriminate.
Qed.

Lemma data_not_blank (l : jsstring) :
  startsWith (js "data: ") l = true ->
  startsWith (js ":") l || streqb (trim l) [] = false.
Proof.
  intros H. apply startsWith_split in H as [r ->].
  apply orb_false_iff. split; [reflexivity|].
  apply streqb_neq. apply (trim_nonempty _ 100%N). reflexivity.
Qed.

Section DataLines.
Variable h : Host.

(** The verdict on a data line, by its payload. *)
Lemma verdict_data (line : jsstring) :
  startsWith (js "data: ") line = true ->
  verdict h line
  = let jsonStr := trim (slice_from 6 line) in
    if streqb jsonStr (js "[DONE]") then sentinel
    else match try_block h jsonStr with
         | threw => anomaly
         | falsy => no_delta
         | appended text => delta text
         end.
Proof.
  intros H. unfold verdict. rewrite (data_not_blank line H), H. reflexivity.
Qed.

Lemma carries_verdict (payload d : jsstring) :
  carries h payload d ->
  verdict h (strip_cr (js "data: " ++ payload)) = delta d.
Proof.
  intros (_ & Hdone & Hd & parsed & Hp & Hc).
  rewrite strip_cr_data, verdict_data by apply startsWith_app.
  change (slice_from 6 (js "data: " ++ strip_cr payload))
    with (strip_cr payload).
  cbv zeta. rewrite strip_cr_trim.
  apply streqb_neq in Hdone. rewrite Hdone.
  unfold try_block. rewrite Hp, Hc. simpl.
  apply streqb_neq in Hd. rewrite Hd. reflexivity.
Qed.

Lemma sentinel_verdict :
  verdict h (strip_cr (js "data: [DONE]")) = sentinel.
Proof. reflexivity. Qed.

Lemma assemble_carried (frames : list (jsstring * jsstring))
      (acc : jsstring) (snaps : list jsstring) :
  Forall (fun f => carries h (fst f) (snd f)) frames ->
  fst (assemble h
         (map strip_cr (map (fun f => js "data: " ++ fst f) frames ++
                        [js "data: [DONE]"])) acc snaps)
  = acc ++ concat (map snd frames).
Proof.
  intros H; revert acc snaps.
  induction H as [|[p d] frames Hf _ IH]; intros acc snaps.
  - simpl. symmetry; apply app_nil_r.
  - cbn [map app assemble fst snd concat].
    rewrite (carries_verdict p d Hf), IH. symmetry. apply app_assoc.
Qed.

Lemma read_through_carried (frames : list (jsstring * jsstring)) :
  Forall (fun f => carries h (fst f) (snd f)) frames ->
  read_through h
    (map strip_cr (map (fun f => js "data: " ++ fst f) frames ++
                   [js "data: [DONE]"])).
Proof.
  induction 1 as [|[p d] frames Hf _ IH].
  - simpl. discriminate.
  - cbn [map app fst]. 
    destruct (map strip_cr (map (fun f => js "data: " ++ fst f) frames ++
                            [js "data: [DONE]"])) as [|l ls] eqn:E.
    + destruct frames; discriminate.
    + unfold read_through; fold read_through. split; [|exact IH].
      unfold stops. rewrite (carries_verdict p d Hf). reflexivity.
Qed.
End DataLines.

(* ================================================================== *)
(** ** The stream loops: results *)

(** C1.  For a stream that consists of N data lines, each carrying a
    non-empty content delta, followed by the [DONE] data line, and for every
    way the text is cut into chunks, the loops end with [assistantMessage]
    equal to the N deltas concatenated in arrival order. *)
Theorem assembled_message_is_concatenation
        (h : Host) (frames : list (jsstring * jsstring))
        (chunks : list jsstring) :
  Forall (fun f => carries h (fst f) (snd f)) frames ->
  concat chunks
  = concat (map (fun f => data_line (fst f)) frames)
    ++ data_line (js "[DONE]") ->
  exists s,
    read_stream h chunks loop_start = Some s /\
    assistantMessage s = concat (map snd frames).
Proof.
  intros Hf Htext.
  set (ls := map (fun f => js "data: " ++ fst f) frames ++ [js "data: [DONE]"]).
  assert (Hshape : concat chunks = concat (map (fun l => l ++ [LF]) ls) ++ []).
  { rewrite Htext, app_nil_r. unfold ls.
    rewrite map_app, concat_app, map_map.
    reflexivity. }
  assert (Hnolf : Forall (fun l => ~ In LF l) ls).
  { unfold ls. apply Forall_app. split.
    - apply Forall_map. eapply Forall_impl; [|exact Hf].
      intros [p d] (Hn & _). simpl. intros Hin.
      repeat (destruct Hin as [Hin|Hin]; [discriminate Hin|]). auto.
    - constructor; [|constructor]. vm_compute. intuition discriminate. }
  destruct (complete_lines_concat ls [] Hnolf) as [Hc Hr].
  rewrite <- Hshape in Hc, Hr. simpl in Hc. rewrite app_nil_r in Hc.
  pose proof (read_stream_read_through h chunks [] [] [] [] eq_refl) as Hrun.
  simpl app in Hrun. rewrite Hc in Hrun.
  specialize (Hrun (read_through_carried h frames Hf)).
  eexists. split; [exact Hrun|]. simpl.
  apply (assemble_carried h frames [] [] Hf).
Qed.

Lemma delta_frames_carry :
  carries RefHost.host (delta_frame "You have ") (js "You have ") /\
  carries RefHost.host (delta_frame "the right to remain silent." ++ [CR])
          (js "the right to remain silent.").
Proof.
  split.
  - split; [vm_compute; intuition discriminate|].
    split; [vm_compute; discriminate|].
    split; [discriminate|].
    eexists. split; vm_compute; reflexivity.
  - split; [vm_compute; intuition discriminate|].
    split; [vm_compute; discriminate|].
    split; [discriminate|].
    eexists. split; vm_compute; reflexivity.
Qed.

(** Two deltas, the second line ending in a carriage return, cut into
    chunks in the middle of a line and of the sentinel. *)
Lemma assembled_message_witness :
  exists s,
    read_stream RefHost.host
      [js "data: " ++ delta_frame "You have " ++ [LF] ++ js "data: {";
       jsq "'choices':[{'delta':{'content':'the right to remain silent.'}}]}"
         ++ [CR; LF] ++ js "data: [DO";
       js "NE]" ++ [LF]]
      loop_start = Some s /\
    assistantMessage s = js "You have the right to remain silent.".
Proof.
  destruct delta_frames_carry as [H1 H2].
  apply (assembled_message_is_concatenation RefHost.host
           [(delta_frame "You have ", js "You have ");
            (delta_frame "the right to remain silent." ++ [CR],
             js "the right to remain silent.")]).
  - constructor; [exact H1|]. constructor; [exact H2|]. constructor.
  - vm_compute. reflexivity.
Defined.

(** C2, as stated, fails: a data line whose payload does not parse is put
    back into the buffer, and is read again with every chunk that arrives
    after it.  The text is the line [data: {] and an empty line; in one
    chunk the reader yields the data line once, in two chunks twice. *)
Lemma chunk_boundary_invariance_fails : ~ chunk_boundary_invariance.
Proof.
  intros H.
  specialize (H RefHost.host (js "data: {" ++ [LF; LF])
                [js "data: {" ++ [LF; LF]] [js "data: {" ++ [LF]; [LF]]
                _ _ eq_refl eq_refl eq_refl eq_refl).
  vm_compute in H. discriminate.
Qed.

(** C2, amended.  For a text in which no complete line before the last
    stops the inner loop (none is a sentinel line or a data line on which
    the [try] block throws, as when its payload fails to parse) and whose
    last complete line is not a data line on which the [try] block throws,
    and for every way of cutting the text into chunks, the reader yields
    the same lines: the segments of the text that end in a line feed, in
    order, each with one trailing carriage return stripped.  The
    unterminated remainder is left in the buffer and yields no line. *)
Theorem lines_independent_of_chunking
        (h : Host) (text : jsstring) (chunks : list jsstring) :
  concat chunks = text ->
  read_through h (map strip_cr (complete_lines text)) ->
  exists s,
    read_stream h chunks loop_start = Some s /\
    lines s = map strip_cr (complete_lines text) /\
    textBuffer s = remainder text.
Proof.
  intros <- Hrt.
  pose proof (read_stream_read_through h chunks [] [] [] [] eq_refl) as Hrun.
  simpl app in Hrun. specialize (Hrun Hrt).
  eexists. split; [exact Hrun|]. split; reflexivity.
Qed.

Lemma lines_independent_of_chunking_witness :
  exists s,
    read_stream RefHost.host
      [js ": keep-alive" ++ [LF] ++ js "data: " ++ delta_frame "Hi";
       [CR; LF; LF] ++ js "event: pi";
       js "ng" ++ [LF] ++ js "data: {}" ++ [LF] ++ js "data: [DONE]";
       [];
       [LF] ++ js "data: tail"]
      loop_start = Some s /\
    lines s = map strip_cr (complete_lines sample_text) /\
    textBuffer s = remainder sample_text.
Proof.
  apply lines_independent_of_chunking.
  - vm_compute. reflexivity.
  - vm_compute. repeat split; discriminate.
Defined.

(** C3.  The inner loop's [break] at the sentinel leaves the outer loop
    running: a delta that arrives in a later chunk is still appended. *)
Theorem delta_after_sentinel_is_appended :
  exists s,
    read_stream RefHost.host
      [js "data: [DONE]" ++ [LF];
       js "data: " ++ delta_frame "X" ++ [LF]]
      loop_start = Some s /\
    assistantMessage s = js "X" /\
    snapshots s = [js "X"].
Proof. eexists. split; [vm_compute; reflexivity|]. split; reflexivity. Qed.

(** C10.  For every finite list of chunks and every state of the loop
    variables, the outer loop over the chunks, with the inner loop run on
    each, comes to its end. *)
Theorem stream_loops_terminate
        (h : Host) (chunks : list jsstring) (s : Loop) :
  exists s', read_stream h chunks s = Some s'.
Proof. apply read_stream_total. Qed.

(* ================================================================== *)
(** ** The accumulator and the display *)

Section Display.
Variable h : Host.

Lemma line_step_in_step (line rest : jsstring) (s s' : Loop) :
  in_step s ->
  line_step h line rest s = Continue s' \/ line_step h line rest s = Break s' ->
  in_step s'.
Proof.
  unfold in_step, line_step. intros Hs.
  destruct (verdict h line); intros [E|E]; inversion E; subst; simpl;
    try exact Hs.
  symmetry. apply last_last.
Qed.

Lemma read_lines_in_step (fuel : nat) (s s' : Loop) :
  in_step s -> read_lines h fuel s = Some s' -> in_step s'.
Proof.
  revert s; induction fuel as [|fuel IH]; intros s Hs H; [discriminate|].
  simpl in H. destruct (indexOf LF (textBuffer s)) as [i|] eqn:Hi;
    [|injection H as <-; exact Hs].
  destruct (indexOf_some _ _ _ Hi) as (l & r & HB & _ & <-).
  rewrite (loop_body_line h l r s HB) in H.
  destruct (line_step h (strip_cr l) r s) as [s1|s1] eqn:E.
  - apply (IH s1); [|exact H]. eapply line_step_in_step; eauto.
  - injection H as <-. eapply line_step_in_step; eauto.
Qed.

Lemma read_stream_in_step (chunks : list jsstring) (s s' : Loop) :
  in_step s -> read_stream h chunks s = Some s' -> in_step s'.
Proof.
  revert s; induction chunks as [|value chunks IH]; intros s Hs H.
  - injection H as <-. exact Hs.
  - simpl in H. destruct (on_chunk h s value) as [s1|] eqn:E; [|discriminate].
    apply (IH s1); [|exact H].
    unfold on_chunk in E. eapply read_lines_in_step; [|exact E]. exact Hs.
Qed.

Lemma no_snapshot_no_message (chunks : list jsstring) (s : Loop) :
  read_stream h chunks loop_start = Some s ->
  snapshots s = [] -> assistantMessage s = [].
Proof.
  intros H E. pose proof (read_stream_in_step chunks loop_start s eq_refl H) as Hs.
  unfold in_step in Hs. rewrite E in Hs. exact Hs.
Qed.
End Display.

(* ================================================================== *)
(** ** A turn, event by event *)

Lemma toasts_app (a b : list Event) : toasts (a ++ b) = toasts a ++ toasts b.
Proof.
  induction a as [|e a IH]; [reflexivity|]. destruct e; simpl; congruence.
Qed.

Lemma displayed_app (a b : list Event) :
  displayed (a ++ b) = displayed a ++ displayed b.
Proof.
  induction a as [|e a IH]; [reflexivity|]. destruct e; simpl; congruence.
Qed.

Lemma saved_app (a b : list Event) : saved (a ++ b) = saved a ++ saved b.
Proof.
  induction a as [|e a IH]; [reflexivity|]. destruct e; simpl; congruence.
Qed.

Lemma created_app (a b : list Event) :
  created (a ++ b) = created a ++ created b.
Proof.
  induction a as [|e a IH]; [reflexivity|]. destruct e; simpl; congruence.
Qed.

Lemma toasts_in (m : jsstring) (es : list Event) :
  In (toast_error m) es <-> In m (toasts es).
Proof.
  induction es as [|e es IH]; [reflexivity|].
  destruct e; simpl; rewrite <- ?IH;
    try (split; [intros [E|E]; [discriminate | exact E] | auto]).
  split; (intros [E|E]; [left; congruence | auto]).
Qed.

Lemma saved_in (id : jsstring) (r : Role) (text : jsstring) (es : list Event) :
  In (insert_message id r text) es <-> In (id, r, text) (saved es).
Proof.
  induction es as [|e es IH]; [reflexivity|].
  destruct e; simpl; rewrite <- ?IH;
    try (split; [intros [E|E]; [discriminate | exact E] | auto]).
  split; (intros [E|E]; [left; congruence | auto]).
Qed.

Section Snapshots.
Variable nm : list Message.
Variable snaps : list jsstring.

Lemma toasts_shown :
toasts (map (fun text => setMessages (nm ++ [mkMessage assistant text]))
            snaps) = [].
Proof. induction snaps; simpl; auto. Qed.

Lemma saved_shown :
saved (map (fun text => setMessages (nm ++ [mkMessage assistant text]))
           snaps) = [].
Proof. induction snaps; simpl; auto. Qed.

Lemma created_shown :
created (map (fun text => setMessages (nm ++ [mkMessage assistant text]))
             snaps) = [].
Proof. induction snaps; simpl; auto. Qed.

Lemma displayed_shown :
displayed (map (fun text => setMessages (nm ++ [mkMessage assistant text]))
               snaps)
= map (fun text => nm ++ [mkMessage assistant text]) snaps.
Proof. induction snaps; simpl; congruence. Qed.
End Snapshots.

Section TurnFacts.
Variable h : Host.
Variable w : World.
Variable c : Component.

Lemma saveMessage_returns (id : jsstring) (r : Role) (text : jsstring) :
  exists log,
    saveMessage w id r text = (insert_message id r text :: log, Ok tt) /\
    toasts log = [] /\ displayed log = [] /\ saved log = [] /\
    created log = [] /\
    (message_insert w id r text = false ->
     log = [console_error (js "Error saving message:")]).
Proof.
  unfold saveMessage. destruct (message_insert w id r text).
  - exists []. repeat split; try reflexivity. discriminate.
  - eexists. repeat split; reflexivity.
Qed.

(** The guarded save: what it writes, and that it returns. *)
Lemma when_id_save (convId : option jsstring) (guard : bool)
      (r : Role) (text : jsstring) :
  exists es,
    when_id convId guard (fun id => saveMessage w id r text) = (es, Ok tt) /\
    toasts es = [] /\ displayed es = [] /\ created es = [] /\
    saved es = rows_if convId guard r text.
Proof.
  unfold when_id, rows_if. destruct convId as [id|].
  - destruct (truthy (Some id) && guard).
    + destruct (saveMessage_returns id r text)
        as (log & -> & Ht & Hd & Hs & Hc & _).
      eexists. split; [reflexivity|]. simpl. rewrite Ht, Hd, Hs, Hc. auto.
    + exists []. repeat split; reflexivity.
  - exists []. repeat split; reflexivity.
Qed.

Lemma ensure_returns (userMessage : jsstring) :
  exists es convId,
    ensure w c userMessage = (es, Ok convId) /\
    displayed es = [] /\ saved es = [] /\
    toasts es = (if truthy (currentConvId c) then []
                 else match auth_user w with
                      | None => [sign_in_notice]
                      | Some _ => []
                      end) /\
    (truthy (currentConvId c) = false -> auth_user w = None ->
     convId = None /\ created es = []).
Proof.
  unfold ensure, createConversation.
  destruct (truthy (currentConvId c)).
  - do 2 eexists. split; [reflexivity|]. repeat split; discriminate.
  - destruct (auth_user w) as [uid|].
    + destruct (conversation_insert w uid (title userMessage)) as [id|].
      * destruct (has_onConversationCreated c);
          do 2 eexists; (split; [reflexivity|]); repeat split; discriminate.
      * do 2 eexists. split; [reflexivity|]. repeat split; discriminate.
    + do 2 eexists. split; [reflexivity|]. repeat split; reflexivity.
Qed.

(** A turn that does not pass the guard of its first line does nothing. *)
Lemma handleSend_idle :
  streqb (trim (input c)) [] || isLoading c = true ->
  handleSend h w c = ([], Ok tt).
Proof. intros Hg. unfold handleSend. rewrite Hg. reflexivity. Qed.

(** A turn whose response body is read to its end: how it ends, what it
    displays, which notifications it shows and which rows it writes. *)
Lemma handleSend_streamed (chunks : list jsstring) (s : Loop) :
  streqb (trim (input c)) [] || isLoading c = false ->
  response w = response_body chunks done ->
  read_stream h chunks loop_start = Some s ->
  let userMessage := trim (input c) in
  let nm := messages c ++ [mkMessage user userMessage] in
  exists convId,
    snd (handleSend h w c) = Ok tt /\
    displayed (fst (handleSend h w c))
    = nm :: map (fun text => nm ++ [mkMessage assistant text]) (snapshots s) /\
    toasts (fst (handleSend h w c))
    = (if truthy (currentConvId c) then []
       else match auth_user w with
            | None => [sign_in_notice]
            | Some _ => []
            end) /\
    saved (fst (handleSend h w c))
    = rows_if convId true user userMessage
      ++ rows_if convId (negb (streqb (assistantMessage s) []))
                 assistant (assistantMessage s) /\
    (truthy (currentConvId c) = false -> auth_user w = None ->
     convId = None /\ created (fst (handleSend h w c)) = []).
Proof.
  intros Hg Hr Hs userMessage nm.
  destruct (ensure_returns userMessage)
    as (pre & convId & He & Hpd & Hps & Hpt & Hpc).
  destruct (when_id_save convId true user userMessage)
    as (save1 & H1 & Ht1 & Hd1 & Hc1 & Hs1).
  destruct (when_id_save convId (negb (streqb (assistantMessage s) []))
                         assistant (assistantMessage s))
    as (save2 & H2 & Ht2 & Hd2 & Hc2 & Hs2).
  assert (Hrun : handleSend h w c
    = ([setInput []; setMessages nm; setIsLoading true]
         ++ pre ++ save1 ++ [fetch_legal_chat nm]
         ++ map (fun text => setMessages (nm ++ [mkMessage assistant text]))
                (snapshots s)
         ++ save2 ++ [setIsLoading false], Ok tt)).
  { unfold handleSend. rewrite Hg. fold userMessage. fold nm.
    unfold ensure in He. rewrite Hr. unfold stream. rewrite Hs.
    unfold try_catch_finally, bind at 4.
    rewrite He. unfold bind at 4. rewrite H1.
    unfold bind, emit, ret. simpl. rewrite H2. simpl.
    rewrite <- !app_assoc. simpl. rewrite <- !app_assoc. reflexivity. }
  exists convId. rewrite Hrun. cbn [fst snd].
  rewrite !displayed_app, !toasts_app, !saved_app, !created_app.
  rewrite displayed_shown, toasts_shown, saved_shown, created_shown.
  rewrite Hpd, Hps, Hpt, Ht1, Hd1, Hc1, Hs1, Ht2, Hd2, Hc2, Hs2.
  simpl. rewrite !app_nil_r.
  repeat split; try reflexivity.
  - apply Hpc; assumption.
  - destruct Hpc as [_ ->]; auto.
Qed.
End TurnFacts.

(* ================================================================== *)
(** ** Results on the frame parser and on the turn *)

(** C4.  The conversation row that [createConversation] inserts has the
    seed message itself as title when the message has at most 50 code
    units, and its first 50 code units followed by three dots when it has
    more. *)
Theorem conversation_title
        (w : World) (c : Component) (firstMessage user_id t : jsstring) :
  In (insert_conversation user_id t)
     (fst (createConversation w c firstMessage)) ->
  (length firstMessage <= 50 -> t = firstMessage) /\
  (50 < length firstMessage ->
   t = substring0 50 firstMessage ++ js "...").
Proof.
  intros Hin.
  assert (Ht : t = title firstMessage).
  { unfold createConversation in Hin.
    destruct (auth_user w) as [uid|].
    - destruct (conversation_insert w uid (title firstMessage));
        [destruct (has_onConversationCreated c)|];
        simpl in Hin;
        repeat destruct Hin as [Hin|Hin]; try discriminate Hin;
        try (injection Hin as _ <-; reflexivity); destruct Hin.
    - simpl in Hin. destruct Hin as [Hin|[]]. discriminate Hin. }
  subst t. unfold title, substring0. split; intros Hlen.
  - destruct (Nat.ltb_spec 50 (length firstMessage)); [lia|].
    rewrite app_nil_r. apply firstn_all2. exact Hlen.
  - destruct (Nat.ltb_spec 50 (length firstMessage)); [reflexivity | lia].
Qed.

(** The spec's two examples: the title of [Hello], and of sixty [x]. *)
Lemma conversation_title_witness :
  title (js "Hello") = js "Hello" /\
  title (repeat 120%N 60) = repeat 120%N 50 ++ js "...".
Proof.
  split.
  - apply (conversation_title signed_in fresh (js "Hello") (js "u1")).
    + left. reflexivity.
    + vm_compute. lia.
  - apply (conversation_title signed_in fresh (repeat 120%N 60) (js "u1")).
    + left. reflexivity.
    + vm_compute. lia.
Defined.

(** No turn whose response body is read to its end shows an error
    notification: the only notification it can show is the sign-in notice. *)
Lemma streamed_turn_is_silent
      (h : Host) (w : World) (c : Component) (chunks : list jsstring) :
  response w = response_body chunks done ->
  snd (handleSend h w c) = Ok tt /\
  forall m, In (toast_error m) (fst (handleSend h w c)) -> m = sign_in_notice.
Proof.
  intros Hr.
  destruct (streqb (trim (input c)) [] || isLoading c) eqn:Hg.
  - rewrite (handleSend_idle h w c Hg). split; [reflexivity|]. intros m [].
  - destruct (read_stream_total h chunks loop_start) as [s Hs].
    destruct (handleSend_streamed h w c chunks s Hg Hr Hs)
      as (convId & Hok & _ & Ht & _).
    split; [exact Hok|]. intros m Hin. apply toasts_in in Hin.
    rewrite Ht in Hin.
    destruct (truthy (currentConvId c)); [destruct Hin|].
    destruct (auth_user w); [destruct Hin|].
    destruct Hin as [<-|[]]. reflexivity.
Qed.

(** C9.  When the payload of a data line parses to a value other than
    [null] and the first choice's delta content is absent or is the empty
    string, the pass only consumes the line: the accumulator is unchanged,
    no snapshot is emitted, nothing is put back in the buffer, and the loop
    continues. *)
Theorem empty_delta_is_dropped
        (h : Host) (raw rest : jsstring) (s : Loop) (parsed : JSON) :
  textBuffer s = raw ++ LF :: rest ->
  ~ In LF raw ->
  startsWith (js "data: ") (strip_cr raw) = true ->
  trim (slice_from 6 (strip_cr raw)) <> js "[DONE]" ->
  JSON_parse h (trim (slice_from 6 (strip_cr raw))) = Some parsed ->
  delta_content parsed = Some None \/
  delta_content parsed = Some (Some (JString [])) ->
  indexOf LF (textBuffer s) = Some (length raw) /\
  loop_body h (length raw) s
  = Continue (mkLoop rest (assistantMessage s) (snapshots s)
                     (lines s ++ [strip_cr raw])).
Proof.
  intros HB Hn Hd Hs Hp Hc. split.
  - rewrite HB. apply indexOf_here. exact Hn.
  - rewrite (loop_body_line h raw rest s HB). unfold line_step.
    rewrite (verdict_data h _ Hd). cbv zeta.
    apply streqb_neq in Hs. rewrite Hs.
    unfold try_block. rewrite Hp.
    destruct Hc as [-> | ->]; reflexivity.
Qed.

Lemma empty_delta_is_dropped_witness :
  loop_body RefHost.host 45
            (mkLoop (js "data: " ++ delta_frame "" ++ [CR; LF] ++ js "data: ")
                    (js "So far") [js "So far"] [])
  = Continue (mkLoop (js "data: ") (js "So far") [js "So far"]
                     [js "data: " ++ delta_frame ""]) /\
  loop_body RefHost.host 32
            (mkLoop (jsq "data: {'choices':[{'delta':{}}]}" ++ [LF])
                    (js "So far") [js "So far"] [])
  = Continue (mkLoop [] (js "So far") [js "So far"]
                     [jsq "data: {'choices':[{'delta':{}}]}"]).
Proof.
  split.
  - refine (proj2 (empty_delta_is_dropped RefHost.host
              (js "data: " ++ delta_frame "" ++ [CR]) (js "data: ")
              (mkLoop _ _ _ _)
              (JObject [(js "choices",
                 JArray [JObject [(js "delta",
                   JObject [(js "content", JString [])])]])])
              eq_refl _ eq_refl _ eq_refl _)).
    + vm_compute. intuition discriminate.
    + vm_compute. discriminate.
    + right. reflexivity.
  - refine (proj2 (empty_delta_is_dropped RefHost.host
              (jsq "data: {'choices':[{'delta':{}}]}") []
              (mkLoop _ _ _ _)
              (JObject [(js "choices",
                 JArray [JObject [(js "delta", JObject [])]])])
              eq_refl _ eq_refl _ eq_refl _)).
    + vm_compute. intuition discriminate.
    + vm_compute. discriminate.
    + left. reflexivity.
Defined.

(** When the stream is read to its end and not one delta was accepted in
    the whole body (no snapshot was emitted), the turn writes no assistant
    row, ends without an error and shows no error notification. *)
Theorem no_delta_no_assistant_row
        (h : Host) (w : World) (c : Component)
        (chunks : list jsstring) (s : Loop) :
  response w = response_body chunks done ->
  read_stream h chunks loop_start = Some s ->
  snapshots s = [] ->
  (forall id text,
      ~ In (insert_message id assistant text) (fst (handleSend h w c))) /\
  snd (handleSend h w c) = Ok tt /\
  (forall m, In (toast_error m) (fst (handleSend h w c)) ->
             m = sign_in_notice).
Proof.
  intros Hr Hs Hsnap.
  destruct (streamed_turn_is_silent h w c chunks Hr) as [Hok Hquiet].
  split; [|split; assumption].
  intros id text Hin.
  destruct (streqb (trim (input c)) [] || isLoading c) eqn:Hg.
  - rewrite (handleSend_idle h w c Hg) in Hin. destruct Hin.
  - destruct (handleSend_streamed h w c chunks s Hg Hr Hs)
      as (convId & _ & _ & _ & Hsaved & _).
    apply saved_in in Hin. rewrite Hsaved in Hin.
    rewrite (no_snapshot_no_message h chunks s Hs Hsnap) in Hin.
    unfold rows_if in Hin. destruct convId as [cid|]; [|destruct Hin].
    rewrite andb_false_r in Hin.
    destruct (truthy (Some cid) && true); simpl in Hin;
      [destruct Hin as [Hin|[]]; discriminate Hin | destruct Hin].
Qed.

Lemma no_delta_no_assistant_row_witness :
  (forall id text,
      ~ In (insert_message id assistant text)
           (fst (handleSend RefHost.host signed_in_no_delta
                            (mkComponent [] (js "Hello") false None false)))) /\
  snd (handleSend RefHost.host signed_in_no_delta
                  (mkComponent [] (js "Hello") false None false)) = Ok tt.
Proof.
  destruct (no_delta_no_assistant_row RefHost.host signed_in_no_delta
              (mkComponent [] (js "Hello") false None false)
              [js ": ping" ++ [LF] ++ js "data: " ++ delta_frame "" ++ [LF];
               js "data: [DONE]" ++ [LF]]
              (mkLoop [] [] []
                      [js ": ping"; js "data: " ++ delta_frame "";
                       js "data: [DONE]"]))
    as (Hrows & Hok & _).
  - reflexivity.
  - vm_compute. reflexivity.
  - reflexivity.
  - split; assumption.
Defined.

(** C7.  [saveMessage] always returns, and logs the failure when the insert
    fails.  Whatever the inserts answer, a turn whose stream is read to its
    end ends without an error, shows no error notification, and displays
    the user's message and then every snapshot of the assembler, the last
    of which is the accumulated assistant message. *)
Theorem failed_save_does_not_interrupt
        (h : Host) (w : World) (c : Component)
        (chunks : list jsstring) (s : Loop) :
  streqb (trim (input c)) [] || isLoading c = false ->
  response w = response_body chunks done ->
  read_stream h chunks loop_start = Some s ->
  let nm := messages c ++ [mkMessage user (trim (input c))] in
  (forall id r text,
      snd (saveMessage w id r text) = Ok tt /\
      (message_insert w id r text = false ->
       In (console_error (js "Error saving message:"))
          (fst (saveMessage w id r text)))) /\
  snd (handleSend h w c) = Ok tt /\
  displayed (fst (handleSend h w c))
  = nm :: map (fun text => nm ++ [mkMessage assistant text]) (snapshots s) /\
  assistantMessage s = last (snapshots s) [] /\
  (forall m, In (toast_error m) (fst (handleSend h w c)) ->
             m = sign_in_notice).
Proof.
  intros Hg Hr Hs nm.
  destruct (handleSend_streamed h w c chunks s Hg Hr Hs)
    as (convId & Hok & Hd & _).
  destruct (streamed_turn_is_silent h w c chunks Hr) as [_ Hquiet].
  split; [|repeat split; try assumption].
  - intros id r text.
    destruct (saveMessage_returns w id r text) as (log & -> & _ & _ & _ & _ & Hl).
    split; [reflexivity|]. intros Hfail. rewrite (Hl Hfail).
    right. left. reflexivity.
  - apply (read_stream_in_step h chunks loop_start s eq_refl Hs).
Qed.

Lemma failed_save_does_not_interrupt_witness :
  snd (handleSend RefHost.host failing_store
                  (mkComponent [] (js "What are my rights?") false None false))
  = Ok tt /\
  displayed
    (fst (handleSend RefHost.host failing_store
                     (mkComponent [] (js "What are my rights?") false None
                                  false)))
  = [[mkMessage user (js "What are my rights?")];
     [mkMessage user (js "What are my rights?");
      mkMessage assistant (js "You have ")];
     [mkMessage user (js "What are my rights?");
      mkMessage assistant (js "You have the right to remain silent.")]].
Proof.
  destruct (failed_save_does_not_interrupt RefHost.host failing_store
              (mkComponent [] (js "What are my rights?") false None false)
              [js "data: " ++ delta_frame "You have " ++ [LF];
               js "data: " ++ delta_frame "the right to remain silent." ++ [LF]
                  ++ js "data: [DONE]" ++ [LF]]
              (mkLoop [] (js "You have the right to remain silent.")
                      [js "You have ";
                       js "You have the right to remain silent."]
                      [js "data: " ++ delta_frame "You have ";
                       js "data: " ++ delta_frame "the right to remain silent.";
                       js "data: [DONE]"]))
    as (_ & Hok & Hd & _).
  - reflexivity.
  - reflexivity.
  - vm_compute. reflexivity.
  - split; [exact Hok|]. rewrite Hd. vm_compute. reflexivity.
Defined.

(* ================================================================== *)
(** ** Further results on the stream loops *)

Lemma startsWith_unit_end (p s : jsstring) (c : code_unit) :
  ~ In c p -> startsWith p (s ++ [c]) = startsWith p s.
Proof.
  revert s; induction p as [|a p IH]; intros s Hn; [reflexivity|].
  destruct s as [|b s]; simpl.
  - destruct (N.eqb_spec a c) as [->|_]; [exfalso; apply Hn; left; reflexivity|].
    reflexivity.
  - rewrite IH; [reflexivity|]. intros Hin. apply Hn. right. exact Hin.
Qed.

Lemma strip_cr_cases (l : jsstring) :
  strip_cr l = l \/ l = strip_cr l ++ [CR].
Proof.
  unfold strip_cr, endsWith, slice_drop_last.
  destruct (rev l) as [|x t] eqn:E; [left; reflexivity|].
  destruct (N.eqb_spec x CR) as [->|_]; [|left; reflexivity].
  right. assert (Hl : l = rev t ++ [CR]).
  { rewrite <- (rev_involutive l), E. reflexivity. }
  rewrite Hl at 2. rewrite removelast_last. exact Hl.
Qed.

Lemma strip_cr_nolf (l : jsstring) : ~ In LF l -> ~ In LF (strip_cr l).
Proof.
  intros Hn Hin. destruct (strip_cr_cases l) as [E|E].
  - rewrite E in Hin. auto.
  - apply Hn. rewrite E. apply in_or_app. left. exact Hin.
Qed.

(** Stripping the carriage return does not change what the frame parser
    makes of a line. *)
Lemma verdict_strip_cr (h : Host) (l : jsstring) :
  verdict h (strip_cr l) = verdict h l.
Proof.
  destruct (strip_cr_cases l) as [E|E]; [rewrite E; reflexivity|].
  set (l' := strip_cr l) in *. rewrite E. unfold verdict.
  rewrite (trim_space_end l' CR eq_refl).
  rewrite !(startsWith_unit_end _ l' CR)
    by (vm_compute; intuition discriminate).
  destruct (startsWith (js ":") l' || streqb (trim l') []); [reflexivity|].
  destruct (startsWith (js "data: ") l') eqn:Hd; [|reflexivity].
  simpl negb. cbv iota.
  apply startsWith_split in Hd as [r Hr]. rewrite Hr.
  change (slice_from 6 (js "data: " ++ r)) with r.
  change (slice_from 6 ((js "data: " ++ r) ++ [CR])) with (r ++ [CR]).
  rewrite (trim_space_end r CR eq_refl). reflexivity.
Qed.

Section Blocking.
Variable h : Host.

(** With a throwing line at its head, the buffer keeps a throwing line at
    its head through every chunk, and nothing is assembled. *)
Lemma read_stream_blocked (chunks : list jsstring) :
  forall (line rest acc : jsstring) (snaps lns : list jsstring),
    ~ In LF line ->
    verdict h (strip_cr line) = anomaly ->
    exists line' lns',
      read_stream h chunks (mkLoop (line ++ LF :: rest) acc snaps lns)
      = Some (mkLoop (line' ++ LF :: rest ++ concat chunks) acc snaps lns').
Proof.
  induction chunks as [|value chunks IH]; intros line rest acc snaps lns Hn Hv.
  - exists line, lns. simpl. rewrite app_nil_r. reflexivity.
  - cbn [read_stream]. unfold on_chunk. cbv zeta.
    cbn [textBuffer assistantMessage snapshots lines].
    assert (HB : (line ++ LF :: rest) ++ value = line ++ LF :: (rest ++ value)).
    { rewrite <- app_assoc. reflexivity. }
    rewrite HB. cbn [read_lines textBuffer].
    rewrite (indexOf_here LF line (rest ++ value) Hn).
    rewrite (loop_body_line h line (rest ++ value)
               (mkLoop (line ++ LF :: rest ++ value) acc snaps lns) eq_refl).
    unfold line_step. rewrite Hv.
    cbn [assistantMessage snapshots lines].
    destruct (IH (strip_cr line) (rest ++ value) acc snaps
                 (lns ++ [strip_cr line]) (strip_cr_nolf line Hn))
      as (line' & lns' & Hrun).
    { rewrite verdict_strip_cr. exact Hv. }
    exists line', lns'. rewrite Hrun. cbn [concat]. rewrite <- app_assoc.
    reflexivity.
Qed.
End Blocking.

(** X1.  Once a data line whose payload fails to parse is the first line of
    the buffer, no chunk that arrives later changes the accumulated message
    or the display: the line stays at the head of the buffer and every
    line behind it is never parsed. *)
Theorem nothing_assembled_behind_parse_failure
        (h : Host) (raw rest : jsstring) (s : Loop) (chunks : list jsstring) :
  textBuffer s = raw ++ LF :: rest ->
  ~ In LF raw ->
  startsWith (js "data: ") (strip_cr raw) = true ->
  trim (slice_from 6 (strip_cr raw)) <> js "[DONE]" ->
  JSON_parse h (trim (slice_from 6 (strip_cr raw))) = None ->
  exists s',
    read_stream h chunks s = Some s' /\
    assistantMessage s' = assistantMessage s /\
    snapshots s' = snapshots s /\
    exists line', textBuffer s' = line' ++ LF :: rest ++ concat chunks.
Proof.
  intros HB Hn Hd Hs Hp.
  assert (Hv : verdict h (strip_cr raw) = anomaly).
  { rewrite (verdict_data h _ Hd). cbv zeta.
    apply streqb_neq in Hs. rewrite Hs.
    unfold try_block. rewrite Hp. reflexivity. }
  destruct s as [B acc snaps lns]. simpl in HB. subst B.
  destruct (read_stream_blocked h chunks raw rest acc snaps lns Hn Hv)
    as (line' & lns' & Hrun).
  eexists. split; [exact Hrun|]. simpl. repeat split. exists line'. reflexivity.
Qed.

Lemma nothing_assembled_behind_parse_failure_witness :
  exists s',
    read_stream RefHost.host
      [js "data: " ++ delta_frame "lost" ++ [LF];
       js "data: [DONE]" ++ [LF]]
      (mkLoop (js "data: {" ++ [LF]) (js "So far") [js "So far"] [])
    = Some s' /\
    assistantMessage s' = js "So far" /\
    snapshots s' = [js "So far"].
Proof.
  destruct (nothing_assembled_behind_parse_failure RefHost.host
              (js "data: {") []
              (mkLoop (js "data: {" ++ [LF]) (js "So far") [js "So far"] [])
              [js "data: " ++ delta_frame "lost" ++ [LF];
               js "data: [DONE]" ++ [LF]])
    as (s' & Hrun & Ha & Hs & _).
  - reflexivity.
  - vm_compute. intuition discriminate.
  - reflexivity.
  - vm_compute. discriminate.
  - reflexivity.
  - exists s'. repeat split; assumption.
Defined.

(** X2.  A line that starts with a colon, is blank, or does not start with
    the six units [data: ] (a [data:] field without the space included) is
    consumed without any effect on the accumulated message, the display or
    the rest of the buffer, and the loop goes on. *)
Theorem other_lines_are_skipped
        (h : Host) (raw rest : jsstring) (s : Loop) :
  textBuffer s = raw ++ LF :: rest ->
  ~ In LF raw ->
  startsWith (js ":") (strip_cr raw) = true \/
  trim (strip_cr raw) = [] \/
  startsWith (js "data: ") (strip_cr raw) = false ->
  indexOf LF (textBuffer s) = Some (length raw) /\
  loop_body h (length raw) s
  = Continue (mkLoop rest (assistantMessage s) (snapshots s)
                     (lines s ++ [strip_cr raw])).
Proof.
  intros HB Hn Hc. split.
  - rewrite HB. apply indexOf_here. exact Hn.
  - rewrite (loop_body_line h raw rest s HB). unfold line_step, verdict.
    destruct Hc as [Hc|[Hc|Hc]].
    + rewrite Hc. reflexivity.
    + rewrite Hc. rewrite orb_true_r. reflexivity.
    + rewrite Hc.
      destruct (startsWith (js ":") (strip_cr raw)
                || streqb (trim (strip_cr raw)) []); reflexivity.
Qed.

Lemma other_lines_are_skipped_witness :
  loop_body RefHost.host 47
            (mkLoop (js "data:" ++ delta_frame "lost" ++ [LF] ++ js "data: ")
                    (js "So far") [js "So far"] [])
  = Continue (mkLoop (js "data: ") (js "So far") [js "So far"]
                     [js "data:" ++ delta_frame "lost"]).
Proof.
  refine (proj2 (other_lines_are_skipped RefHost.host
            (js "data:" ++ delta_frame "lost") (js "data: ")
            (mkLoop _ _ _ _) eq_refl _ _)).
  - vm_compute. intuition discriminate.
  - right. right. reflexivity.
Defined.

(** X3.  When the payload of a data line parses to [null], the first,
    non-optional property access throws, and the pass treats the line like
    one that failed to parse: it is put back in front of the buffer and the
    inner loop breaks. *)
Theorem null_payload_pushed_back
        (h : Host) (raw rest : jsstring) (s : Loop) :
  textBuffer s = raw ++ LF :: rest ->
  ~ In LF raw ->
  startsWith (js "data: ") (strip_cr raw) = true ->
  trim (slice_from 6 (strip_cr raw)) <> js "[DONE]" ->
  JSON_parse h (trim (slice_from 6 (strip_cr raw))) = Some JNull ->
  loop_body h (length raw) s
  = Break (mkLoop (strip_cr raw ++ LF :: rest) (assistantMessage s)
                  (snapshots s) (lines s ++ [strip_cr raw])).
Proof.
  intros HB Hn Hd Hs Hp.
  rewrite (loop_body_line h raw rest s HB). unfold line_step.
  rewrite (verdict_data h _ Hd). cbv zeta.
  apply streqb_neq in Hs. rewrite Hs.
  unfold try_block. rewrite Hp. reflexivity.
Qed.

Lemma null_payload_pushed_back_witness :
  loop_body RefHost.host 10
            (mkLoop (js "data: null" ++ [LF] ++ js "data: ") [] [] [])
  = Break (mkLoop (js "data: null" ++ [LF] ++ js "data: ") [] []
                  [js "data: null"]).
Proof.
  apply (null_payload_pushed_back RefHost.host (js "data: null") (js "data: ")
           (mkLoop (js "data: null" ++ [LF] ++ js "data: ") [] [] [])).
  - reflexivity.
  - vm_compute. intuition discriminate.
  - reflexivity.
  - vm_compute. discriminate.
  - reflexivity.
Defined.

(** X4.  A body without a line feed is never parsed: whatever its chunks
    hold, they only pile up in the buffer, and a delta in a last line that
    is not terminated is lost. *)
Theorem unterminated_text_is_not_parsed
        (h : Host) (chunks : list jsstring) :
  ~ In LF (concat chunks) ->
  read_stream h chunks loop_start = Some (mkLoop (concat chunks) [] [] []).
Proof.
  intros Hn.
  pose proof (read_stream_read_through h chunks [] [] [] [] eq_refl) as Hrun.
  simpl app in Hrun. unfold complete_lines, remainder in Hrun.
  rewrite (split_lines_nolf (concat chunks) Hn) in Hrun.
  apply Hrun. exact I.
Qed.

Lemma unterminated_text_is_not_parsed_witness :
  read_stream RefHost.host
    [js "data: "; delta_frame "lost"] loop_start
  = Some (mkLoop (js "data: " ++ delta_frame "lost") [] [] []).
Proof.
  apply (unterminated_text_is_not_parsed RefHost.host
           [js "data: "; delta_frame "lost"]).
  vm_compute. intuition discriminate.
Defined.

(** X5.  For a text whose lines are read through (see C2), the whole state
    the loops end in, accumulated message and sequence of snapshots
    included, is the same for every way of cutting the text into chunks. *)
Theorem final_state_independent_of_chunking
        (h : Host) (text : jsstring) (chunks1 chunks2 : list jsstring) :
  concat chunks1 = text ->
  concat chunks2 = text ->
  read_through h (map strip_cr (complete_lines text)) ->
  read_stream h chunks1 loop_start = read_stream h chunks2 loop_start /\
  exists s, read_stream h chunks1 loop_start = Some s /\
            assistantMessage s
            = fst (assemble h (map strip_cr (complete_lines text)) [] []).
Proof.
  intros H1 H2 Hrt.
  pose proof (read_stream_read_through h chunks1 [] [] [] [] eq_refl) as R1.
  pose proof (read_stream_read_through h chunks2 [] [] [] [] eq_refl) as R2.
  simpl app in R1, R2. rewrite H1 in R1. rewrite H2 in R2.
  unfold loop_start. rewrite (R1 Hrt), (R2 Hrt). split; [reflexivity|].
  eexists. split; reflexivity.
Qed.

Lemma final_state_independent_of_chunking_witness :
  read_stream RefHost.host [sample_text] loop_start
  = read_stream RefHost.host
      [js ": keep-alive" ++ [LF] ++ js "data: " ++ delta_frame "Hi";
       [CR; LF; LF] ++ js "event: pi";
       js "ng" ++ [LF] ++ js "data: {}" ++ [LF] ++ js "data: [DONE]";
       [];
       [LF] ++ js "data: tail"]
      loop_start.
Proof.
  refine (proj1 (final_state_independent_of_chunking RefHost.host sample_text
                   _ _ _ _ _)).
  - vm_compute. reflexivity.
  - vm_compute. reflexivity.
  - vm_compute. repeat split; discriminate.
Defined.

Lemma last_cons (x d : jsstring) (l : list jsstring) :
  last (x :: l) d = last l x.
Proof.
  revert x d; induction l as [|y l IH]; intros x d; [reflexivity|].
  change (last (x :: y :: l) d) with (last (y :: l) d).
  rewrite (IH y d), (IH y x). reflexivity.
Qed.

Lemma chain_app (prev : jsstring) (a b : list jsstring) :
  chain prev a -> chain (last a prev) b -> chain prev (a ++ b).
Proof.
  revert prev; induction a as [|x a IH]; intros prev Ha Hb; [exact Hb|].
  destruct Ha as [Hx Ha]. split; [exact Hx|]. apply IH; [exact Ha|].
  rewrite last_cons in Hb. exact Hb.
Qed.

Lemma last_app_default (a b : list jsstring) (d : jsstring) :
  last (a ++ b) d = last b (last a d).
Proof.
  revert d; induction a as [|x a IH]; intros d; [reflexivity|].
  change ((x :: a) ++ b) with (x :: (a ++ b)).
  rewrite !last_cons. apply IH.
Qed.

Section Growth.
Variable h : Host.

Lemma grown_refl (s : Loop) : grown s s.
Proof. exists []. rewrite app_nil_r. repeat split. Qed.

Lemma grown_trans (s1 s2 s3 : Loop) : grown s1 s2 -> grown s2 s3 -> grown s1 s3.
Proof.
  intros (a & Ha & Hca & Hla) (b & Hb & Hcb & Hlb).
  exists (a ++ b). rewrite Hb, Ha, app_assoc. split; [reflexivity|].
  rewrite Hla in Hcb, Hlb. split.
  - apply chain_app; assumption.
  - rewrite last_app_default. exact Hlb.
Qed.

Lemma line_step_grown (line rest : jsstring) (s s' : Loop) :
  line_step h line rest s = Continue s' \/ line_step h line rest s = Break s' ->
  grown s s'.
Proof.
  unfold line_step.
  destruct (verdict h line) as [| | | |d]; intros [E|E]; inversion E; subst;
    try solve [exists []; simpl; rewrite app_nil_r; repeat split].
  exists [assistantMessage s ++ d]. simpl.
  split; [reflexivity|].
  split; [split; [exists d; reflexivity | exact I] | reflexivity].
Qed.

Lemma read_lines_grown (fuel : nat) (s s' : Loop) :
  read_lines h fuel s = Some s' -> grown s s'.
Proof.
  revert s; induction fuel as [|fuel IH]; intros s H; [discriminate|].
  simpl in H. destruct (indexOf LF (textBuffer s)) as [i|] eqn:Hi;
    [|injection H as <-; apply grown_refl].
  destruct (indexOf_some _ _ _ Hi) as (l & r & HB & _ & <-).
  rewrite (loop_body_line h l r s HB) in H.
  destruct (line_step h (strip_cr l) r s) as [s1|s1] eqn:E.
  - apply (grown_trans s s1 s'); [|apply IH; exact H].
    eapply line_step_grown; eauto.
  - injection H as <-. eapply line_step_grown; eauto.
Qed.

Lemma read_stream_grown (chunks : list jsstring) (s s' : Loop) :
  read_stream h chunks s = Some s' -> grown s s'.
Proof.
  revert s; induction chunks as [|value chunks IH]; intros s H.
  - injection H as <-. apply grown_refl.
  - simpl in H. destruct (on_chunk h s value) as [s1|] eqn:E; [|discriminate].
    apply (grown_trans s s1 s'); [|apply IH; exact H].
    unfold on_chunk in E. apply read_lines_grown in E.
    destruct E as (added & Ha & Hc & Hl). exists added. auto.
Qed.
End Growth.

(** X6.  Whatever the chunks hold, the loops only add to the display: the
    snapshots emitted so far stay, each new snapshot extends the text shown
    before it, and the accumulated message at the end is the last snapshot
    (or the message the loops started with, when none was emitted). *)
Theorem display_only_grows
        (h : Host) (chunks : list jsstring) (s : Loop) :
  exists s' added,
    read_stream h chunks s = Some s' /\
    snapshots s' = snapshots s ++ added /\
    chain (assistantMessage s) added /\
    assistantMessage s' = last added (assistantMessage s).
Proof.
  destruct (read_stream_total h chunks s) as [s' Hrun].
  destruct (read_stream_grown h chunks s s' Hrun) as (added & Ha & Hc & Hl).
  exists s', added. auto.
Qed.

(* ================================================================== *)
(** ** Further results on the turn *)

Lemma last_default_cons {A : Type} (x d : A) (l : list A) :
  last (x :: l) d = last l x.
Proof.
  revert x d; induction l as [|y l IH]; intros x d; [reflexivity|].
  change (last (x :: y :: l) d) with (last (y :: l) d).
  rewrite (IH y d), (IH y x). reflexivity.
Qed.

Lemma last_default_app {A : Type} (a b : list A) (d : A) :
  last (a ++ b) d = last b (last a d).
Proof.
  revert d; induction a as [|x a IH]; intros d; [reflexivity|].
  change ((x :: a) ++ b) with (x :: (a ++ b)).
  rewrite !last_default_cons. apply IH.
Qed.

Lemma requests_app (a b : list Event) :
  requests (a ++ b) = requests a ++ requests b.
Proof.
  induction a as [|e a IH]; [reflexivity|]. destruct e; simpl; congruence.
Qed.

Lemma conv_ids_app (a b : list Event) :
  conv_ids (a ++ b) = conv_ids a ++ conv_ids b.
Proof.
  induction a as [|e a IH]; [reflexivity|]. destruct e; simpl; congruence.
Qed.

Lemma loading_flags_app (a b : list Event) :
  loading_flags (a ++ b) = loading_flags a ++ loading_flags b.
Proof.
  induction a as [|e a IH]; [reflexivity|]. destruct e; simpl; congruence.
Qed.

Lemma inputs_app (a b : list Event) :
  inputs (a ++ b) = inputs a ++ inputs b.
Proof.
  induction a as [|e a IH]; [reflexivity|]. destruct e; simpl; congruence.
Qed.

(** The next render sees, for each piece of state, the value its setter was
    last called with. *)
Lemma rerender_fields (es : list Event) :
  forall c,
    messages (rerender c es) = last (displayed es) (messages c) /\
    input (rerender c es) = last (inputs es) (input c) /\
    isLoading (rerender c es) = last (loading_flags es) (isLoading c) /\
    currentConvId (rerender c es) = last (conv_ids es) (currentConvId c) /\
    has_onConversationCreated (rerender c es) = has_onConversationCreated c.
Proof.
  unfold rerender.
  induction es as [|e es IH]; intros c; [repeat split|].
  cbn [fold_left]. destruct (IH (apply_event c e)) as (Hm & Hi & Hl & Hc & Hh).
  rewrite Hm, Hi, Hl, Hc, Hh.
  destruct e; cbn [displayed inputs loading_flags conv_ids apply_event
                   messages input isLoading currentConvId
                   has_onConversationCreated];
    rewrite ?last_default_cons; repeat split.
Qed.

(** The events of the loop and of the [catch] block set no state but the
    message list. *)
Lemma shown_sets (nm : list Message) (snaps : list jsstring) :
  requests (shown nm snaps) = [] /\ conv_ids (shown nm snaps) = [] /\
  loading_flags (shown nm snaps) = [] /\ inputs (shown nm snaps) = [] /\
  created (shown nm snaps) = [] /\ saved (shown nm snaps) = [] /\
  toasts (shown nm snaps) = [] /\
  displayed (shown nm snaps)
  = map (fun text => nm ++ [mkMessage assistant text]) snaps.
Proof.
  unfold shown. induction snaps as [|x snaps IH]; [repeat split|].
  destruct IH as (? & ? & ? & ? & ? & ? & ? & Hd).
  simpl. rewrite Hd. repeat split; assumption.
Qed.

Section TurnTrace.
Variable h : Host.
Variable w : World.
Variable c : Component.

Lemma when_id_sets (convId : option jsstring) (guard : bool)
      (r : Role) (text : jsstring) :
  let es := fst (when_id convId guard (fun id => saveMessage w id r text)) in
  snd (when_id convId guard (fun id => saveMessage w id r text)) = Ok tt /\
  requests es = [] /\ conv_ids es = [] /\ loading_flags es = [] /\
  inputs es = [] /\ created es = [] /\ toasts es = [] /\ displayed es = [] /\
  saved es = rows_if convId guard r text.
Proof.
  unfold when_id, rows_if, saveMessage. destruct convId as [id|].
  - destruct (truthy (Some id) && guard); [|repeat split].
    destruct (message_insert w id r text); repeat split.
  - repeat split.
Qed.

Lemma ensure_sets (userMessage : jsstring) :
  let es := fst (ensure w c userMessage) in
  exists convId,
    snd (ensure w c userMessage) = Ok convId /\
    requests es = [] /\ loading_flags es = [] /\ inputs es = [] /\
    displayed es = [] /\ saved es = [].
Proof.
  unfold ensure, createConversation.
  destruct (truthy (currentConvId c)); [eexists; repeat split|].
  destruct (auth_user w) as [uid|]; [|eexists; repeat split].
  destruct (conversation_insert w uid (title userMessage)) as [id|];
    [|eexists; repeat split].
  destruct (has_onConversationCreated c); eexists; repeat split.
Qed.

(** Every turn that passes the guard of its first line, event by event. *)
Lemma handleSend_trace (convId : option jsstring) :
  streqb (trim (input c)) [] || isLoading c = false ->
  snd (ensure w c (trim (input c))) = Ok convId ->
  let userMessage := trim (input c) in
  let nm := messages c ++ [mkMessage user userMessage] in
  handleSend h w c
  = ([setInput []; setMessages nm; setIsLoading true]
       ++ fst (ensure w c userMessage)
       ++ fst (when_id convId true
                 (fun id => saveMessage w id user userMessage))
       ++ [fetch_legal_chat nm]
       ++ after_request h w nm convId
       ++ [setIsLoading false], Ok tt).
Proof.
  intros Hg He userMessage nm. fold userMessage in He.
  destruct (ensure w c userMessage) as [pre r] eqn:Hens.
  simpl in He. subst r.
  destruct (when_id_sets convId true user userMessage) as (H1 & _).
  destruct (when_id convId true (fun id => saveMessage w id user userMessage))
    as [save1 r1] eqn:Hw1.
  simpl in H1. subst r1. cbn [fst].
  unfold handleSend. rewrite Hg. fold userMessage. fold nm.
  unfold ensure in Hens. unfold after_request.
  unfold try_catch_finally, bind at 4. rewrite Hens.
  unfold bind at 4. rewrite Hw1.
  destruct (response w) as [message| |chunks ending].
  - unfold bind, emit, ret, throw, failure_events. simpl.
    repeat (rewrite <- app_assoc; simpl). reflexivity.
  - unfold bind, emit, ret, throw, failure_events. simpl.
    repeat (rewrite <- app_assoc; simpl). reflexivity.
  - unfold stream. destruct (read_stream_total h chunks loop_start) as [s ->].
    fold (shown nm (snapshots s)).
    destruct ending as [|message].
    + destruct (when_id_sets convId (negb (streqb (assistantMessage s) []))
                             assistant (assistantMessage s)) as (H2 & _).
      destruct (when_id convId (negb (streqb (assistantMessage s) []))
                  (fun id => saveMessage w id assistant (assistantMessage s)))
        as [save2 r2] eqn:Hw2.
      simpl in H2. subst r2.
      unfold bind, emit, ret. simpl. rewrite Hw2. simpl.
      repeat (rewrite <- app_assoc; simpl). reflexivity.
    + unfold bind, emit, ret, throw, failure_events. simpl.
      repeat (rewrite <- app_assoc; simpl). reflexivity.
Qed.

Lemma after_request_sets (nm : list Message) (convId : option jsstring) :
  requests (after_request h w nm convId) = [] /\
  conv_ids (after_request h w nm convId) = [] /\
  loading_flags (after_request h w nm convId) = [] /\
  inputs (after_request h w nm convId) = [] /\
  created (after_request h w nm convId) = [].
Proof.
  unfold after_request.
  destruct (response w) as [message| |chunks ending]; [repeat split..|].
  destruct (read_stream h chunks loop_start) as [s|]; [|repeat split].
  destruct (shown_sets nm (snapshots s)) as (Hr & Hc & Hl & Hi & Hcr & _).
  rewrite requests_app, conv_ids_app, loading_flags_app, inputs_app,
    created_app, Hr, Hc, Hl, Hi, Hcr.
  destruct ending as [|message]; [|repeat split].
  destruct (when_id_sets convId (negb (streqb (assistantMessage s) []))
                         assistant (assistantMessage s))
    as (_ & Hr2 & Hc2 & Hl2 & Hi2 & Hcr2 & _).
  cbv zeta in *. rewrite Hr2, Hc2, Hl2, Hi2, Hcr2. repeat split.
Qed.
End TurnTrace.

Lemma last_map_shown (nm : list Message) (snaps : list jsstring) :
  last (map (fun text => nm ++ [mkMessage assistant text]) snaps) nm
  = match snaps with
    | [] => nm
    | _ => nm ++ [mkMessage assistant (last snaps [])]
    end.
Proof.
  destruct snaps as [|x snaps]; [reflexivity|].
  revert x; induction snaps as [|y snaps IH]; intros x; [reflexivity|].
  change (last (map (fun text => nm ++ [mkMessage assistant text])
                    (x :: y :: snaps)) nm)
    with (last (map (fun text => nm ++ [mkMessage assistant text])
                    (y :: snaps)) nm).
  rewrite IH. reflexivity.
Qed.

(** The state a turn leaves, whatever the collaborators answer. *)
Lemma handleSend_latch (h : Host) (w : World) (c : Component) :
  streqb (trim (input c)) [] || isLoading c = false ->
  snd (handleSend h w c) = Ok tt /\
  requests (fst (handleSend h w c))
  = [messages c ++ [mkMessage user (trim (input c))]] /\
  input (rerender c (fst (handleSend h w c))) = [] /\
  isLoading (rerender c (fst (handleSend h w c))) = false.
Proof.
  intros Hg.
  destruct (ensure_sets w c (trim (input c)))
    as (convId & He & Hr & Hl & Hi & _).
  rewrite (handleSend_trace h w c convId Hg He). cbn [fst snd].
  destruct (when_id_sets w convId true user (trim (input c)))
    as (_ & Hr1 & _ & Hl1 & Hi1 & _).
  destruct (after_request_sets h w (messages c ++ [mkMessage user (trim (input c))])
                               convId) as (Hr2 & _ & Hl2 & Hi2 & _).
  cbv zeta in *.
  destruct (rerender_fields
              ([setInput []; setMessages (messages c ++ [mkMessage user (trim (input c))]);
                setIsLoading true]
                 ++ fst (ensure w c (trim (input c)))
                 ++ fst (when_id convId true
                           (fun id => saveMessage w id user (trim (input c))))
                 ++ [fetch_legal_chat (messages c ++ [mkMessage user (trim (input c))])]
                 ++ after_request h w (messages c ++ [mkMessage user (trim (input c))]) convId
                 ++ [setIsLoading false]) c) as (_ & Hin & Hload & _).
  rewrite Hin, Hload.
  rewrite !requests_app, !inputs_app, !loading_flags_app.
  rewrite Hr, Hl, Hi, Hr1, Hl1, Hi1, Hr2, Hl2, Hi2.
  repeat split.
Qed.

(** X7.  Every turn that passes the guard of its first line ends without
    an error, whatever the collaborators answer; it sends exactly one
    request, carrying the messages on screen followed by the trimmed input
    as a user message; and the next render finds the input empty and
    [isLoading] false again. *)
Theorem turn_releases_latch (h : Host) (w : World) (c : Component) :
  streqb (trim (input c)) [] || isLoading c = false ->
  snd (handleSend h w c) = Ok tt /\
  requests (fst (handleSend h w c))
  = [messages c ++ [mkMessage user (trim (input c))]] /\
  input (rerender c (fst (handleSend h w c))) = [] /\
  isLoading (rerender c (fst (handleSend h w c))) = false.
Proof. apply handleSend_latch. Qed.

Lemma turn_releases_latch_witness :
  snd (handleSend RefHost.host interrupted
                  (mkComponent [] (js " Hello ") false None false)) = Ok tt /\
  requests (fst (handleSend RefHost.host interrupted
                            (mkComponent [] (js " Hello ") false None false)))
  = [[mkMessage user (js "Hello")]] /\
  isLoading (rerender (mkComponent [] (js " Hello ") false None false)
                      (fst (handleSend RefHost.host interrupted
                              (mkComponent [] (js " Hello ") false None false))))
  = false.
Proof.
  destruct (turn_releases_latch RefHost.host interrupted
              (mkComponent [] (js " Hello ") false None false) eq_refl)
    as (Hok & Hr & _ & Hl).
  repeat split; assumption.
Defined.

(** X8.  When the request fails (fetch rejects, or the response has a
    failure status or no body), the turn displays the user's message and
    nothing else, writes no assistant row, and shows as its last
    notification the error's message, or [Failed to get response] when the
    message is empty; the user's message stays on screen. *)
Theorem failed_request_saves_no_reply
        (h : Host) (w : World) (c : Component) (message : jsstring) :
  streqb (trim (input c)) [] || isLoading c = false ->
  response w = fetch_rejects message \/
  (response w = response_unusable /\ message = js "Failed to get response") ->
  let nm := messages c ++ [mkMessage user (trim (input c))] in
  displayed (fst (handleSend h w c)) = [nm] /\
  messages (rerender c (fst (handleSend h w c))) = nm /\
  (forall id text,
      ~ In (insert_message id assistant text) (fst (handleSend h w c))) /\
  toasts (fst (handleSend h w c))
  = (if truthy (currentConvId c) then []
     else match auth_user w with
          | None => [sign_in_notice]
          | Some _ => []
          end)
    ++ [if streqb message [] then js "Failed to get response" else message].
Proof.
  intros Hg Hr nm.
  destruct (ensure_returns w c (trim (input c)))
    as (pre & convId & He & Hpd & Hps & Hpt & _).
  assert (He' : snd (ensure w c (trim (input c))) = Ok convId)
    by (rewrite He; reflexivity).
  pose proof (handleSend_trace h w c convId Hg He') as Hrun.
  cbv zeta in Hrun. fold nm in Hrun. rewrite He in Hrun. cbn [fst] in Hrun.
  destruct (when_id_sets w convId true user (trim (input c)))
    as (_ & _ & _ & _ & _ & _ & Ht1 & Hd1 & Hs1).
  cbv zeta in *.
  assert (Hafter : after_request h w nm convId = failure_events message).
  { unfold after_request. destruct Hr as [-> | [-> ->]]; reflexivity. }
  rewrite Hafter in Hrun.
  destruct (rerender_fields (fst (handleSend h w c)) c) as (Hm & _).
  rewrite Hm. rewrite Hrun. cbn [fst].
  assert (Hdisp : displayed ([setInput []; setMessages nm; setIsLoading true]
                    ++ pre
                    ++ fst (when_id convId true
                              (fun id => saveMessage w id user (trim (input c))))
                    ++ [fetch_legal_chat nm] ++ failure_events message
                    ++ [setIsLoading false]) = [nm]).
  { rewrite !displayed_app, Hpd, Hd1. reflexivity. }
  rewrite Hdisp. split; [reflexivity|]. split; [reflexivity|]. split.
  - intros id text Hin. apply saved_in in Hin.
    rewrite !saved_app, Hps, Hs1 in Hin. simpl in Hin.
    rewrite app_nil_r in Hin. unfold rows_if in Hin.
    destruct convId as [cid|]; [|destruct Hin].
    destruct (truthy (Some cid) && true); simpl in Hin;
      [destruct Hin as [Hin|[]]; discriminate Hin | destruct Hin].
  - rewrite !toasts_app, Hpt, Ht1. reflexivity.
Qed.

Lemma failed_request_saves_no_reply_witness :
  displayed (fst (handleSend RefHost.host refused
                             (mkComponent [] (js "Hello") false None false)))
  = [[mkMessage user (js "Hello")]] /\
  toasts (fst (handleSend RefHost.host refused
                          (mkComponent [] (js "Hello") false None false)))
  = [js "Failed to get response"].
Proof.
  destruct (failed_request_saves_no_reply RefHost.host refused
              (mkComponent [] (js "Hello") false None false)
              (js "Failed to get response") eq_refl)
    as (Hd & _ & _ & Ht).
  - right. split; reflexivity.
  - split; [exact Hd | exact Ht].
Defined.

Section TurnSummary.
Variable h : Host.
Variable w : World.
Variable c : Component.

(** What a turn that passes the guard displays, writes and shows, in terms
    of its conversation phase and of what follows the request. *)
Lemma handleSend_summary (pre : list Event) (convId : option jsstring) :
  streqb (trim (input c)) [] || isLoading c = false ->
  ensure w c (trim (input c)) = (pre, Ok convId) ->
  let um := trim (input c) in
  let nm := messages c ++ [mkMessage user um] in
  let es := fst (handleSend h w c) in
  created es = created pre /\
  conv_ids es = conv_ids pre /\
  displayed es = nm :: displayed pre ++ displayed (after_request h w nm convId) /\
  saved es = saved pre ++ rows_if convId true user um
             ++ saved (after_request h w nm convId) /\
  toasts es = toasts pre ++ toasts (after_request h w nm convId).
Proof.
  intros Hg He um nm es.
  assert (He' : snd (ensure w c (trim (input c))) = Ok convId)
    by (rewrite He; reflexivity).
  pose proof (handleSend_trace h w c convId Hg He') as Hrun.
  cbv zeta in Hrun. fold um in Hrun. fold nm in Hrun. fold um in He.
  rewrite He in Hrun. cbn [fst] in Hrun.
  destruct (when_id_sets w convId true user um)
    as (_ & _ & Hc1 & _ & _ & Hcr1 & Ht1 & Hd1 & Hs1).
  destruct (after_request_sets h w nm convId) as (_ & Hc2 & _ & _ & Hcr2).
  cbv zeta in *. subst es. rewrite Hrun. cbn [fst].
  rewrite !created_app, !conv_ids_app, !displayed_app, !saved_app, !toasts_app.
  rewrite Hc1, Hcr1, Ht1, Hd1, Hs1, Hc2, Hcr2. simpl.
  rewrite !app_nil_r. repeat split.
Qed.

Lemma after_request_done (nm : list Message) (convId : option jsstring)
      (chunks : list jsstring) (s : Loop) :
  response w = response_body chunks done ->
  read_stream h chunks loop_start = Some s ->
  displayed (after_request h w nm convId)
  = map (fun text => nm ++ [mkMessage assistant text]) (snapshots s) /\
  saved (after_request h w nm convId)
  = rows_if convId (negb (streqb (assistantMessage s) [])) assistant
            (assistantMessage s) /\
  toasts (after_request h w nm convId) = [].
Proof.
  intros Hr Hs. unfold after_request. rewrite Hr, Hs.
  destruct (shown_sets nm (snapshots s)) as (_ & _ & _ & _ & _ & Hsv & Ht & Hd).
  destruct (when_id_sets w convId (negb (streqb (assistantMessage s) []))
                         assistant (assistantMessage s))
    as (_ & _ & _ & _ & _ & _ & Ht2 & Hd2 & Hs2).
  cbv zeta in *.
  rewrite displayed_app, saved_app, toasts_app, Hsv, Ht, Hd, Ht2, Hd2, Hs2.
  rewrite app_nil_r. repeat split.
Qed.

Lemma after_request_interrupted (nm : list Message) (convId : option jsstring)
      (chunks : list jsstring) (message : jsstring) (s : Loop) :
  response w = response_body chunks (read_rejects message) ->
  read_stream h chunks loop_start = Some s ->
  displayed (after_request h w nm convId)
  = map (fun text => nm ++ [mkMessage assistant text]) (snapshots s) /\
  saved (after_request h w nm convId) = [] /\
  toasts (after_request h w nm convId)
  = [if streqb message [] then js "Failed to get response" else message].
Proof.
  intros Hr Hs. unfold after_request. rewrite Hr, Hs.
  destruct (shown_sets nm (snapshots s)) as (_ & _ & _ & _ & _ & Hsv & Ht & Hd).
  rewrite displayed_app, saved_app, toasts_app, Hsv, Ht, Hd.
  rewrite app_nil_r. repeat split.
Qed.

Lemma ensure_current (id : jsstring) (um : jsstring) :
  currentConvId c = Some id -> id <> [] ->
  ensure w c um = ([], Ok (Some id)).
Proof.
  intros Hc Hid. unfold ensure. rewrite Hc.
  destruct id; [contradiction | reflexivity].
Qed.

Lemma ensure_created (uid id um : jsstring) :
  truthy (currentConvId c) = false ->
  auth_user w = Some uid ->
  conversation_insert w uid (title um) = Some id ->
  exists callback,
    ensure w c um
    = (insert_conversation uid (title um) :: setCurrentConvId id :: callback,
       Ok (Some id)) /\
    (callback = [] \/ callback = [onConversationCreated id]).
Proof.
  intros Hc Hu Hi. unfold ensure, createConversation. rewrite Hc, Hu, Hi.
  destruct (has_onConversationCreated c); eexists; split; try reflexivity; auto.
Qed.

Lemma ensure_refused (uid um : jsstring) :
  truthy (currentConvId c) = false ->
  auth_user w = Some uid ->
  conversation_insert w uid (title um) = None ->
  ensure w c um
  = ([insert_conversation uid (title um);
      console_error (js "Error creating conversation:")], Ok None).
Proof.
  intros Hc Hu Hi. unfold ensure, createConversation. rewrite Hc, Hu, Hi.
  reflexivity.
Qed.
End TurnSummary.

(** X9.  When a read of the response body is rejected after some deltas
    were displayed, the turn shows the error's message, the partial answer
    stays on screen, and no assistant row is written: what the user sees is
    not what is stored. *)
Theorem interrupted_stream_is_shown_not_saved
        (h : Host) (w : World) (c : Component)
        (chunks : list jsstring) (message : jsstring) (s : Loop) :
  streqb (trim (input c)) [] || isLoading c = false ->
  response w = response_body chunks (read_rejects message) ->
  read_stream h chunks loop_start = Some s ->
  let nm := messages c ++ [mkMessage user (trim (input c))] in
  messages (rerender c (fst (handleSend h w c)))
  = match snapshots s with
    | [] => nm
    | _ => nm ++ [mkMessage assistant (assistantMessage s)]
    end /\
  (forall id text,
      ~ In (insert_message id assistant text) (fst (handleSend h w c))) /\
  In (toast_error (if streqb message [] then js "Failed to get response"
                   else message))
     (fst (handleSend h w c)).
Proof.
  intros Hg Hr Hs nm.
  destruct (ensure_returns w c (trim (input c)))
    as (pre & convId & He & Hpd & Hps & Hpt & _).
  destruct (handleSend_summary h w c pre convId Hg He)
    as (_ & _ & Hd & Hsv & Ht).
  destruct (after_request_interrupted h w nm convId chunks message s Hr Hs)
    as (Hd2 & Hs2 & Ht2).
  cbv zeta in *. fold nm in Hd, Hsv, Ht.
  rewrite Hpd, Hd2 in Hd. rewrite Hps, Hs2 in Hsv. rewrite Ht2 in Ht.
  split; [|split].
  - destruct (rerender_fields (fst (handleSend h w c)) c) as (Hm & _).
    rewrite Hm, Hd. simpl app. rewrite last_default_cons, last_map_shown.
    rewrite (read_stream_in_step h chunks loop_start s eq_refl Hs).
    reflexivity.
  - intros id text Hin. apply saved_in in Hin. rewrite Hsv in Hin.
    simpl in Hin. rewrite app_nil_r in Hin. unfold rows_if in Hin.
    destruct convId as [cid|]; [|destruct Hin].
    destruct (truthy (Some cid) && true); simpl in Hin;
      [destruct Hin as [Hin|[]]; discriminate Hin | destruct Hin].
  - apply toasts_in. rewrite Ht. apply in_or_app. right. left. reflexivity.
Qed.

Lemma interrupted_stream_is_shown_not_saved_witness :
  messages (rerender (mkComponent [] (js "Hello") false None false)
                     (fst (handleSend RefHost.host interrupted
                             (mkComponent [] (js "Hello") false None false))))
  = [mkMessage user (js "Hello"); mkMessage assistant (js "You have ")] /\
  saved (fst (handleSend RefHost.host interrupted
                         (mkComponent [] (js "Hello") false None false)))
  = [(js "c1", user, js "Hello")].
Proof.
  destruct (interrupted_stream_is_shown_not_saved RefHost.host interrupted
              (mkComponent [] (js "Hello") false None false)
              [js "data: " ++ delta_frame "You have " ++ [LF]]
              (js "network error")
              (mkLoop [] (js "You have ") [js "You have "]
                      [js "data: " ++ delta_frame "You have "]))
    as (Hm & _ & _).
  - reflexivity.
  - reflexivity.
  - vm_compute. reflexivity.
  - split; [exact Hm | vm_compute; reflexivity].
Defined.

(** The transcript a turn leaves for the next render. *)
Lemma handleSend_transcript
        (h : Host) (w : World) (c : Component)
        (chunks : list jsstring) (s : Loop) :
  streqb (trim (input c)) [] || isLoading c = false ->
  response w = response_body chunks done ->
  read_stream h chunks loop_start = Some s ->
  messages (rerender c (fst (handleSend h w c)))
  = messages c ++ [mkMessage user (trim (input c))]
    ++ match snapshots s with
       | [] => []
       | _ => [mkMessage assistant (assistantMessage s)]
       end.
Proof.
  intros Hg Hr Hs.
  destruct (handleSend_streamed h w c chunks s Hg Hr Hs) as (_ & _ & Hd & _).
  destruct (rerender_fields (fst (handleSend h w c)) c) as (Hm & _).
  rewrite Hm, Hd, last_default_cons, last_map_shown.
  rewrite (read_stream_in_step h chunks loop_start s eq_refl Hs).
  destruct (snapshots s); [rewrite app_nil_r|rewrite <- app_assoc]; reflexivity.
Qed.

(** X10.  After a turn whose stream is read to its end, the next render
    shows the messages that were on screen, then the user's message, then,
    when at least one delta was accepted, exactly one assistant message
    holding the accumulated text: the snapshots replace one another. *)
Theorem transcript_after_turn
        (h : Host) (w : World) (c : Component)
        (chunks : list jsstring) (s : Loop) :
  streqb (trim (input c)) [] || isLoading c = false ->
  response w = response_body chunks done ->
  read_stream h chunks loop_start = Some s ->
  messages (rerender c (fst (handleSend h w c)))
  = messages c ++ [mkMessage user (trim (input c))]
    ++ match snapshots s with
       | [] => []
       | _ => [mkMessage assistant (assistantMessage s)]
       end.
Proof. apply handleSend_transcript. Qed.

Lemma transcript_after_turn_witness :
  messages (rerender (mkComponent [mkMessage user (js "Hi");
                                   mkMessage assistant (js "Hello")]
                                  (js "What are my rights?") false
                                  (Some (js "c1")) false)
                     (fst (handleSend RefHost.host failing_store
                             (mkComponent [mkMessage user (js "Hi");
                                           mkMessage assistant (js "Hello")]
                                          (js "What are my rights?") false
                                          (Some (js "c1")) false))))
  = [mkMessage user (js "Hi"); mkMessage assistant (js "Hello");
     mkMessage user (js "What are my rights?");
     mkMessage assistant (js "You have the right to remain silent.")].
Proof.
  rewrite (transcript_after_turn RefHost.host failing_store
             (mkComponent [mkMessage user (js "Hi");
                           mkMessage assistant (js "Hello")]
                          (js "What are my rights?") false
                          (Some (js "c1")) false)
             [js "data: " ++ delta_frame "You have " ++ [LF];
              js "data: " ++ delta_frame "the right to remain silent." ++ [LF]
                 ++ js "data: [DONE]" ++ [LF]]
             (mkLoop [] (js "You have the right to remain silent.")
                     [js "You have ";
                      js "You have the right to remain silent."]
                     [js "data: " ++ delta_frame "You have ";
                      js "data: " ++ delta_frame "the right to remain silent.";
                      js "data: [DONE]"])
             eq_refl eq_refl).
  - reflexivity.
  - vm_compute. reflexivity.
Defined.

(** The rows a turn writes under its current conversation. *)
Lemma handleSend_reuse
        (h : Host) (w : World) (c : Component) (id : jsstring)
        (chunks : list jsstring) (s : Loop) :
  currentConvId c = Some id -> id <> [] ->
  streqb (trim (input c)) [] || isLoading c = false ->
  response w = response_body chunks done ->
  read_stream h chunks loop_start = Some s ->
  created (fst (handleSend h w c)) = [] /\
  conv_ids (fst (handleSend h w c)) = [] /\
  toasts (fst (handleSend h w c)) = [] /\
  saved (fst (handleSend h w c))
  = (id, user, trim (input c))
      :: (if streqb (assistantMessage s) [] then []
          else [(id, assistant, assistantMessage s)]).
Proof.
  intros Hc Hid Hg Hr Hs.
  pose proof (ensure_current w c id (trim (input c)) Hc Hid) as He.
  destruct (handleSend_summary h w c [] (Some id) Hg He)
    as (Hcr & Hci & _ & Hsv & Ht).
  destruct (after_request_done h w
              (messages c ++ [mkMessage user (trim (input c))])
              (Some id) chunks s Hr Hs) as (_ & Hs2 & Ht2).
  cbv zeta in *. rewrite Hs2 in Hsv. rewrite Ht2 in Ht.
  repeat split; try assumption.
  rewrite Hsv. unfold rows_if. destruct id; [contradiction|]. simpl.
  destruct (streqb (assistantMessage s) []); reflexivity.
Qed.

(** X11.  With a current conversation, a turn does not consult the
    authentication state: it creates no conversation row, sets no
    conversation id, shows no notice, and writes the user's message, then
    the accumulated assistant message when it is not empty, both under the
    current id. *)
Theorem current_conversation_is_reused
        (h : Host) (w : World) (c : Component) (id : jsstring)
        (chunks : list jsstring) (s : Loop) :
  currentConvId c = Some id -> id <> [] ->
  streqb (trim (input c)) [] || isLoading c = false ->
  response w = response_body chunks done ->
  read_stream h chunks loop_start = Some s ->
  created (fst (handleSend h w c)) = [] /\
  conv_ids (fst (handleSend h w c)) = [] /\
  toasts (fst (handleSend h w c)) = [] /\
  saved (fst (handleSend h w c))
  = (id, user, trim (input c))
      :: (if streqb (assistantMessage s) [] then []
          else [(id, assistant, assistantMessage s)]).
Proof. apply handleSend_reuse. Qed.

Lemma current_conversation_is_reused_witness :
  created (fst (handleSend RefHost.host signed_out
                           (mkComponent [] (js "Hello") false
                                        (Some (js "c7")) false))) = [] /\
  saved (fst (handleSend RefHost.host signed_out
                         (mkComponent [] (js "Hello") false
                                      (Some (js "c7")) false)))
  = [(js "c7", user, js "Hello"); (js "c7", assistant, js "Hi")].
Proof.
  destruct (current_conversation_is_reused RefHost.host signed_out
              (mkComponent [] (js "Hello") false (Some (js "c7")) false)
              (js "c7")
              [js "data: " ++ delta_frame "Hi" ++ [LF] ++ js "data: [DONE]"
                  ++ [LF]]
              (mkLoop [] (js "Hi") [js "Hi"]
                      [js "data: " ++ delta_frame "Hi"; js "data: [DONE]"])
              eq_refl)
    as (Hcr & _ & _ & Hsv).
  - discriminate.
  - reflexivity.
  - reflexivity.
  - vm_compute. reflexivity.
  - split; [exact Hcr | exact Hsv].
Defined.

(** X12.  Without a current conversation, for a signed-in user whose
    conversation insert answers a non-empty id, a turn creates exactly one
    conversation row, owned by the user and titled from the trimmed input,
    writes its message rows under the new id, and the next render has that
    id as the current conversation. *)
Theorem conversation_created_on_first_send
        (h : Host) (w : World) (c : Component) (uid id : jsstring)
        (chunks : list jsstring) (s : Loop) :
  truthy (currentConvId c) = false ->
  auth_user w = Some uid ->
  conversation_insert w uid (title (trim (input c))) = Some id ->
  id <> [] ->
  streqb (trim (input c)) [] || isLoading c = false ->
  response w = response_body chunks done ->
  read_stream h chunks loop_start = Some s ->
  created (fst (handleSend h w c)) = [(uid, title (trim (input c)))] /\
  currentConvId (rerender c (fst (handleSend h w c))) = Some id /\
  toasts (fst (handleSend h w c)) = [] /\
  saved (fst (handleSend h w c))
  = (id, user, trim (input c))
      :: (if streqb (assistantMessage s) [] then []
          else [(id, assistant, assistantMessage s)]).
Proof.
  intros Hc Hu Hi Hid Hg Hr Hs.
  destruct (ensure_created w c uid id (trim (input c)) Hc Hu Hi)
    as (callback & He & Hcb).
  destruct (handleSend_summary h w c _ (Some id) Hg He)
    as (Hcr & Hci & _ & Hsv & Ht).
  destruct (after_request_done h w
              (messages c ++ [mkMessage user (trim (input c))])
              (Some id) chunks s Hr Hs) as (_ & Hs2 & Ht2).
  cbv zeta in *. rewrite Hs2 in Hsv. rewrite Ht2 in Ht.
  destruct (rerender_fields (fst (handleSend h w c)) c) as (_ & _ & _ & Hcur & _).
  rewrite Hcur, Hcr, Hci, Ht, Hsv.
  unfold rows_if. destruct id as [|x id]; [contradiction|].
  destruct Hcb as [-> | ->]; simpl;
    destruct (streqb (assistantMessage s) []); repeat split.
Qed.

Lemma conversation_created_on_first_send_witness :
  created (fst (handleSend RefHost.host signed_in_hi
                           (mkComponent [] (js " Hello ") false None true)))
  = [(js "u1", js "Hello")] /\
  currentConvId
    (rerender (mkComponent [] (js " Hello ") false None true)
              (fst (handleSend RefHost.host signed_in_hi
                      (mkComponent [] (js " Hello ") false None true))))
  = Some (js "c1") /\
  saved (fst (handleSend RefHost.host signed_in_hi
                         (mkComponent [] (js " Hello ") false None true)))
  = [(js "c1", user, js "Hello"); (js "c1", assistant, js "Hi")].
Proof.
  destruct (conversation_created_on_first_send RefHost.host signed_in_hi
              (mkComponent [] (js " Hello ") false None true)
              (js "u1") (js "c1")
              [js "data: " ++ delta_frame "Hi" ++ [LF] ++ js "data: [DONE]"
                  ++ [LF]]
              (mkLoop [] (js "Hi") [js "Hi"]
                      [js "data: " ++ delta_frame "Hi"; js "data: [DONE]"]))
    as (Hcr & Hcur & _ & Hsv).
  - reflexivity.
  - reflexivity.
  - reflexivity.
  - discriminate.
  - reflexivity.
  - reflexivity.
  - vm_compute. reflexivity.
  - repeat split; assumption.
Defined.

(** X13.  When the conversation insert of a signed-in user fails, the turn
    logs it and shows no notification, writes no message row, still
    displays the user's message and every snapshot, and leaves the current
    conversation as it was, so that the next send tries the insert again. *)
Theorem failed_conversation_insert
        (h : Host) (w : World) (c : Component) (uid : jsstring)
        (chunks : list jsstring) (s : Loop) :
  truthy (currentConvId c) = false ->
  auth_user w = Some uid ->
  conversation_insert w uid (title (trim (input c))) = None ->
  streqb (trim (input c)) [] || isLoading c = false ->
  response w = response_body chunks done ->
  read_stream h chunks loop_start = Some s ->
  let nm := messages c ++ [mkMessage user (trim (input c))] in
  In (console_error (js "Error creating conversation:"))
     (fst (handleSend h w c)) /\
  toasts (fst (handleSend h w c)) = [] /\
  saved (fst (handleSend h w c)) = [] /\
  displayed (fst (handleSend h w c))
  = nm :: map (fun text => nm ++ [mkMessage assistant text]) (snapshots s) /\
  currentConvId (rerender c (fst (handleSend h w c))) = currentConvId c.
Proof.
  intros Hc Hu Hi Hg Hr Hs nm.
  pose proof (ensure_refused w c uid (trim (input c)) Hc Hu Hi) as He.
  destruct (handleSend_summary h w c _ None Hg He)
    as (_ & Hci & Hd & Hsv & Ht).
  destruct (after_request_done h w nm None chunks s Hr Hs) as (Hd2 & Hs2 & Ht2).
  cbv zeta in *. fold nm in Hd, Hsv, Ht.
  rewrite Hd2 in Hd. rewrite Hs2 in Hsv. rewrite Ht2 in Ht.
  destruct (rerender_fields (fst (handleSend h w c)) c) as (_ & _ & _ & Hcur & _).
  rewrite Hcur, Hci. repeat split; try assumption.
  assert (He' : snd (ensure w c (trim (input c))) = Ok None)
    by (rewrite He; reflexivity).
  rewrite (handleSend_trace h w c None Hg He'). cbn [fst]. rewrite He. cbn [fst].
  apply in_or_app. right. apply in_or_app. left. right. left. reflexivity.
Qed.

Lemma failed_conversation_insert_witness :
  saved (fst (handleSend RefHost.host no_conversation
                         (mkComponent [] (js "Hello") false None false))) = [] /\
  displayed (fst (handleSend RefHost.host no_conversation
                             (mkComponent [] (js "Hello") false None false)))
  = [[mkMessage user (js "Hello")];
     [mkMessage user (js "Hello"); mkMessage assistant (js "Hi")]].
Proof.
  destruct (failed_conversation_insert RefHost.host no_conversation
              (mkComponent [] (js "Hello") false None false) (js "u1")
              [js "data: " ++ delta_frame "Hi" ++ [LF] ++ js "data: [DONE]"
                  ++ [LF]]
              (mkLoop [] (js "Hi") [js "Hi"]
                      [js "data: " ++ delta_frame "Hi"; js "data: [DONE]"]))
    as (_ & _ & Hsv & Hd & _).
  - reflexivity.
  - reflexivity.
  - reflexivity.
  - reflexivity.
  - reflexivity.
  - vm_compute. reflexivity.
  - split; [exact Hsv|]. rewrite Hd. vm_compute. reflexivity.
Defined.

(** X14.  The title has the length of the message when that is at most
    50 code units and 53 code units otherwise, so never more than 53, and
    it begins with the first 50 code units of the message. *)
Theorem title_bounds (firstMessage : jsstring) :
  length (title firstMessage)
  = (if 50 <? length firstMessage then 53 else length firstMessage) /\
  length (title firstMessage) <= 53 /\
  substring0 50 (title firstMessage) = substring0 50 firstMessage.
Proof.
  unfold title, substring0.
  destruct (Nat.ltb_spec 50 (length firstMessage)) as [Hlt|Hle].
  - assert (Hlen : length (firstn 50 firstMessage) = 50)
      by (rewrite length_firstn; lia).
    rewrite length_app, Hlen.
    split; [reflexivity|]. split; [simpl; lia|].
    rewrite firstn_app, Hlen, Nat.sub_diag, firstn_O, app_nil_r.
    rewrite firstn_firstn. reflexivity.
  - rewrite app_nil_r, firstn_all2 by exact Hle.
    split; [reflexivity|]. split; [lia|]. apply firstn_all2. exact Hle.
Qed.

Section Sessions.
Variable h : Host.

Lemma rows_if_id (convId : option jsstring) (guard : bool) (r : Role)
      (text : jsstring) :
  Forall (fun row => convId = Some (fst (fst row)))
         (rows_if convId guard r text).
Proof.
  unfold rows_if. destruct convId as [id|]; [|constructor].
  destruct (truthy (Some id) && guard); repeat constructor.
Qed.

Lemma after_request_rows (w : World) (nm : list Message)
      (convId : option jsstring) :
  Forall (fun row => convId = Some (fst (fst row)))
         (saved (after_request h w nm convId)).
Proof.
  unfold after_request.
  destruct (response w) as [message| |chunks ending]; [constructor..|].
  destruct (read_stream h chunks loop_start) as [s|]; [|constructor].
  destruct (shown_sets nm (snapshots s)) as (_ & _ & _ & _ & _ & Hsv & _).
  rewrite saved_app, Hsv. simpl.
  destruct ending as [|message]; [|constructor].
  destruct (when_id_sets w convId (negb (streqb (assistantMessage s) []))
                         assistant (assistantMessage s))
    as (_ & _ & _ & _ & _ & _ & _ & _ & Hs2).
  cbv zeta in Hs2. rewrite Hs2. apply rows_if_id.
Qed.

(** A turn with a current conversation: it creates none, keeps the id and
    writes under it. *)
Lemma turn_with_conversation (w : World) (c : Component) (id : jsstring) :
  currentConvId c = Some id -> id <> [] ->
  streqb (trim (input c)) [] || isLoading c = false ->
  created (fst (handleSend h w c)) = [] /\
  currentConvId (rerender c (fst (handleSend h w c))) = Some id /\
  isLoading (rerender c (fst (handleSend h w c))) = false /\
  Forall (fun row => fst (fst row) = id) (saved (fst (handleSend h w c))).
Proof.
  intros Hc Hid Hg.
  pose proof (ensure_current w c id (trim (input c)) Hc Hid) as He.
  destruct (handleSend_summary h w c [] (Some id) Hg He)
    as (Hcr & Hci & _ & Hsv & _).
  destruct (handleSend_latch h w c Hg) as (_ & _ & _ & Hl).
  destruct (rerender_fields (fst (handleSend h w c)) c) as (_ & _ & _ & Hcur & _).
  cbv zeta in *. rewrite Hcur, Hci, Hcr, Hsv.
  cbn [created conv_ids saved last app].
  split; [reflexivity|]. split; [exact Hc|]. split; [exact Hl|].
  apply Forall_app. split.
  - eapply Forall_impl; [|apply rows_if_id]. simpl. intros row [= ->]. reflexivity.
  - eapply Forall_impl; [|apply after_request_rows].
    simpl. intros row [= ->]. reflexivity.
Qed.

(** A turn that creates its conversation. *)
Lemma turn_creating (w : World) (c : Component) (uid id : jsstring) :
  truthy (currentConvId c) = false ->
  auth_user w = Some uid ->
  conversation_insert w uid (title (trim (input c))) = Some id ->
  id <> [] ->
  streqb (trim (input c)) [] || isLoading c = false ->
  created (fst (handleSend h w c)) = [(uid, title (trim (input c)))] /\
  currentConvId (rerender c (fst (handleSend h w c))) = Some id /\
  isLoading (rerender c (fst (handleSend h w c))) = false /\
  Forall (fun row => fst (fst row) = id) (saved (fst (handleSend h w c))).
Proof.
  intros Hc Hu Hi Hid Hg.
  destruct (ensure_created w c uid id (trim (input c)) Hc Hu Hi)
    as (callback & He & Hcb).
  destruct (handleSend_summary h w c _ (Some id) Hg He)
    as (Hcr & Hci & _ & Hsv & _).
  destruct (handleSend_latch h w c Hg) as (_ & _ & _ & Hl).
  destruct (rerender_fields (fst (handleSend h w c)) c) as (_ & _ & _ & Hcur & _).
  cbv zeta in *. rewrite Hcur, Hci, Hcr, Hsv.
  assert (Hpre : created (insert_conversation uid (title (trim (input c)))
                            :: setCurrentConvId id :: callback)
                 = [(uid, title (trim (input c)))]
                 /\ conv_ids (insert_conversation uid (title (trim (input c)))
                                :: setCurrentConvId id :: callback)
                    = [Some id]
                 /\ saved (insert_conversation uid (title (trim (input c)))
                             :: setCurrentConvId id :: callback) = []).
  { destruct Hcb as [-> | ->]; repeat split. }
  destruct Hpre as (-> & -> & ->). cbn [last app].
  split; [reflexivity|]. split; [reflexivity|]. split; [exact Hl|].
  apply Forall_app. split.
  - eapply Forall_impl; [|apply rows_if_id]. simpl. intros row [= ->]. reflexivity.
  - eapply Forall_impl; [|apply after_request_rows].
    simpl. intros row [= ->]. reflexivity.
Qed.

Lemma typed_passes_guard (c : Component) (typed : jsstring) :
  trim typed <> [] -> isLoading c = false ->
  streqb (trim (input (apply_event c (setInput typed)))) []
  || isLoading (apply_event c (setInput typed)) = false.
Proof.
  intros Ht Hl. simpl. rewrite Hl, orb_false_r. apply streqb_neq. exact Ht.
Qed.

(** Once a conversation is current, a session creates no other and writes
    every row under it. *)
Lemma session_with_conversation (turns : list (jsstring * World)) :
  forall (c : Component) (id : jsstring),
    currentConvId c = Some id -> id <> [] -> isLoading c = false ->
    Forall (fun t => trim (fst t) <> []) turns ->
    created (session h c turns) = [] /\
    Forall (fun row => fst (fst row) = id) (saved (session h c turns)).
Proof.
  induction turns as [|[typed w] turns IH]; intros c id Hc Hid Hl Hts.
  - split; constructor.
  - inversion Hts as [|? ? Ht Hts']; subst. simpl in Ht.
    cbn [session].
    set (c1 := apply_event c (setInput typed)).
    destruct (turn_with_conversation w c1 id Hc Hid
                (typed_passes_guard c typed Ht Hl))
      as (Hcr & Hcur & Hl1 & Hrows).
    destruct (IH (rerender c1 (fst (handleSend h w c1))) id Hcur Hid Hl1 Hts')
      as (Hcr' & Hrows').
    rewrite created_app, saved_app, Hcr, Hcr'. split; [reflexivity|].
    apply Forall_app. split; assumption.
Qed.
End Sessions.

(** X15.  In a session that starts without a conversation, in which every
    send has a non-blank text, the user is signed in and the conversation
    insert answers a non-empty id, the first send creates the conversation
    and no later send creates another: the session writes one conversation
    row, and all its message rows carry one conversation id. *)
Theorem one_conversation_per_session
        (h : Host) (c : Component) (turns : list (jsstring * World)) :
  truthy (currentConvId c) = false ->
  isLoading c = false ->
  turns <> [] ->
  Forall (fun t => conversation_granted (fst t) (snd t)) turns ->
  length (created (session h c turns)) = 1 /\
  exists id,
    Forall (fun row => fst (fst row) = id) (saved (session h c turns)).
Proof.
  intros Hc Hl Hne Hts.
  destruct turns as [|[typed w] turns]; [contradiction|].
  inversion Hts as [|? ? Hg Hts']; subst.
  destruct Hg as (Ht & [uid Hu] & Hins). simpl in Ht, Hu, Hins.
  cbn [session].
  set (c1 := apply_event c (setInput typed)).
  destruct (conversation_insert w uid (title (trim (input c1)))) as [id|] eqn:Hi.
  2:{ specialize (Hins uid (title (trim (input c1)))).
      rewrite Hi in Hins. discriminate. }
  assert (Hid : id <> []).
  { specialize (Hins uid (title (trim (input c1)))). rewrite Hi in Hins.
    destruct id; [discriminate Hins | discriminate]. }
  destruct (turn_creating h w c1 uid id Hc Hu Hi Hid
              (typed_passes_guard c typed Ht Hl))
    as (Hcr & Hcur & Hl1 & Hrows).
  destruct (session_with_conversation h turns
              (rerender c1 (fst (handleSend h w c1))) id Hcur Hid Hl1)
    as (Hcr' & Hrows').
  { eapply Forall_impl; [|exact Hts']. intros t (Htt & _). exact Htt. }
  rewrite created_app, saved_app, Hcr, Hcr'. split; [reflexivity|].
  exists id. apply Forall_app. split; assumption.
Qed.

Lemma one_conversation_per_session_witness :
  length (created (session RefHost.host fresh
                           [(js "Hello", signed_in_hi);
                            (js "Again", refused);
                            (js "Once more", interrupted)])) = 1.
Proof.
  refine (proj1 (one_conversation_per_session RefHost.host fresh
                   [(js "Hello", signed_in_hi); (js "Again", refused);
                    (js "Once more", interrupted)] eq_refl eq_refl _ _)).
  - discriminate.
  - repeat constructor; try (vm_compute; discriminate);
      try (exists (js "u1"); reflexivity).
Defined.

(** X16.  Saving and loading agree.  For a panel hydrated from the stored
    rows of its conversation, after a turn whose stream is read to its end,
    whose inserts the store accepts, and which accepted no delta or
    accumulated a non-empty message: loading the conversation again, with
    the rows of the turn after the earlier rows, displays exactly the
    transcript the turn left on screen. *)
Theorem reload_shows_transcript
        (h : Host) (w : World) (c : Component) (id : jsstring)
        (chunks : list jsstring) (s : Loop) (prior : list Row) :
  currentConvId c = Some id -> id <> [] ->
  streqb (trim (input c)) [] || isLoading c = false ->
  response w = response_body chunks done ->
  read_stream h chunks loop_start = Some s ->
  (forall i r t, message_insert w i r t = true) ->
  snapshots s = [] \/ assistantMessage s <> [] ->
  messages c = map (fun msg => mkMessage (row_role msg) (row_content msg)) prior ->
  loadConversation
    (select_data (Some (prior ++ kept w (fst (handleSend h w c)))))
  = ([setMessages (messages (rerender c (fst (handleSend h w c))))], Ok tt).
Proof.
  intros Hc Hid Hg Hr Hs Hacc Hshape Hprior.
  destruct (handleSend_reuse h w c id chunks s Hc Hid Hg Hr Hs)
    as (_ & _ & _ & Hsv).
  rewrite (handleSend_transcript h w c chunks s Hg Hr Hs).
  unfold loadConversation, try_catch, emit, kept. rewrite Hsv.
  assert (Hall : forall rows,
             filter (fun row => message_insert w (fst (fst row))
                                               (snd (fst row)) (snd row)) rows
             = rows).
  { induction rows as [|[[i r] t] rows IH]; [reflexivity|].
    simpl. rewrite Hacc, IH. reflexivity. }
  rewrite Hall, map_app, <- Hprior. do 3 f_equal.
  destruct (snapshots s) as [|x snaps] eqn:Hsn.
  - rewrite (no_snapshot_no_message h chunks s Hs Hsn). reflexivity.
  - destruct Hshape as [Hshape|Hshape]; [discriminate|].
    apply streqb_neq in Hshape. rewrite Hshape. reflexivity.
Qed.

Lemma reload_shows_transcript_witness :
  loadConversation
    (select_data
       (Some ([mkRow (js "m1") (js "c1") user (js "Hi") (js "t1");
               mkRow (js "m2") (js "c1") assistant (js "Hello") (js "t2")]
                ++ kept signed_in_hi
                     (fst (handleSend RefHost.host signed_in_hi
                             (mkComponent [mkMessage user (js "Hi");
                                           mkMessage assistant (js "Hello")]
                                          (js "Thanks") false
                                          (Some (js "c1")) false))))))
  = ([setMessages [mkMessage user (js "Hi"); mkMessage assistant (js "Hello");
                   mkMessage user (js "Thanks");
                   mkMessage assistant (js "Hi")]], Ok tt).
Proof.
  rewrite (reload_shows_transcript RefHost.host signed_in_hi
             (mkComponent [mkMessage user (js "Hi");
                           mkMessage assistant (js "Hello")]
                          (js "Thanks") false (Some (js "c1")) false)
             (js "c1")
             [js "data: " ++ delta_frame "Hi" ++ [LF] ++ js "data: [DONE]"
                 ++ [LF]]
             (mkLoop [] (js "Hi") [js "Hi"]
                     [js "data: " ++ delta_frame "Hi"; js "data: [DONE]"])
             [mkRow (js "m1") (js "c1") user (js "Hi") (js "t1");
              mkRow (js "m2") (js "c1") assistant (js "Hello") (js "t2")]
             eq_refl).
  - vm_compute. reflexivity.
  - discriminate.
  - reflexivity.
  - reflexivity.
  - vm_compute. reflexivity.
  - reflexivity.
  - right. discriminate.
  - reflexivity.
Defined.

(* ================================================================== *)
(** ** The guard and the user's message *)

Lemma trimStart_all_space (s : jsstring) :
  Forall (fun u => is_space u = true) s -> trimStart s = [].
Proof.
  induction 1 as [|u s Hu _ IH]; [reflexivity|]. simpl. rewrite Hu. exact IH.
Qed.

Lemma trimStart_head (s r : jsstring) (x : code_unit) :
  trimStart s = x :: r -> is_space x = false.
Proof.
  induction s as [|u s IH]; [discriminate|]. simpl.
  destruct (is_space u) eqn:Hu; [exact IH|]. intros [= <- _]. exact Hu.
Qed.

Lemma trimStart_suffix (s : jsstring) : exists p, s = p ++ trimStart s.
Proof.
  induction s as [|u s [p IH]]; [exists []; reflexivity|]. simpl.
  destruct (is_space u); [|exists []; reflexivity].
  exists (u :: p). simpl. rewrite <- IH. reflexivity.
Qed.

Lemma trimEnd_prefix (t : jsstring) : exists q, t = trimEnd t ++ q.
Proof.
  unfold trimEnd. destruct (trimStart_suffix (rev t)) as [p Hp].
  exists (rev p). rewrite <- rev_app_distr, <- Hp, rev_involutive. reflexivity.
Qed.

(** [trim] leaves no white space at either end. *)
Lemma trim_ends (s : jsstring) :
  (forall x r, trim s = x :: r -> is_space x = false) /\
  (forall x r, trim s = r ++ [x] -> is_space x = false).
Proof.
  unfold trim. split; intros x r E.
  - destruct (trimEnd_prefix (trimStart s)) as [q Hq].
    rewrite E in Hq. simpl in Hq. exact (trimStart_head s _ x Hq).
  - unfold trimEnd in E. apply (f_equal (@rev _)) in E.
    rewrite rev_involutive, rev_app_distr in E. simpl in E.
    exact (trimStart_head _ _ x E).
Qed.

Lemma requests_in (ms : list Message) (es : list Event) :
  In (fetch_legal_chat ms) es <-> In ms (requests es).
Proof.
  induction es as [|e es IH]; [reflexivity|].
  destruct e; simpl; rewrite <- ?IH;
    try (split; [intros [E|E]; [discriminate | exact E] | auto]).
  split; (intros [E|E]; [left; congruence | auto]).
Qed.

(** X17.  A send whose input holds nothing but white space, or that is
    made while a response is loading, does nothing at all: no state is set,
    no row is written and no request is sent. *)
Theorem blank_or_busy_send_does_nothing
        (h : Host) (w : World) (c : Component) :
  Forall (fun u => is_space u = true) (input c) \/ isLoading c = true ->
  handleSend h w c = ([], Ok tt).
Proof.
  intros Hc. apply handleSend_idle.
  destruct Hc as [Hblank | ->]; [|apply orb_true_r].
  unfold trim, trimEnd. rewrite (trimStart_all_space _ Hblank). reflexivity.
Qed.

Lemma blank_or_busy_send_does_nothing_witness :
  handleSend RefHost.host signed_in_hi
             (mkComponent [] [32; 9; 10; 160]%N false None false)
  = ([], Ok tt) /\
  handleSend RefHost.host signed_in_hi
             (mkComponent [] (js "Hello") true None false)
  = ([], Ok tt).
Proof.
  split.
  - apply (blank_or_busy_send_does_nothing RefHost.host signed_in_hi
             (mkComponent [] [32; 9; 10; 160]%N false None false)).
    left. repeat constructor.
  - apply (blank_or_busy_send_does_nothing RefHost.host signed_in_hi
             (mkComponent [] (js "Hello") true None false)).
    right. reflexivity.
Defined.

(** X18.  Every request a turn sends carries the messages on screen
    followed by one user message, whose text is the trimmed input: it is
    not empty and has no white space at its start or at its end. *)
Theorem request_carries_trimmed_message
        (h : Host) (w : World) (c : Component) (ms : list Message) :
  In (fetch_legal_chat ms) (fst (handleSend h w c)) ->
  ms = messages c ++ [mkMessage user (trim (input c))] /\
  trim (input c) <> [] /\
  (forall x r, trim (input c) = x :: r -> is_space x = false) /\
  (forall x r, trim (input c) = r ++ [x] -> is_space x = false).
Proof.
  intros Hin.
  destruct (streqb (trim (input c)) [] || isLoading c) eqn:Hg.
  - rewrite (handleSend_idle h w c Hg) in Hin. destruct Hin.
  - destruct (handleSend_latch h w c Hg) as (_ & Hr & _).
    apply requests_in in Hin. rewrite Hr in Hin.
    destruct Hin as [<-|[]].
    apply orb_false_iff in Hg as [Hne _]. apply streqb_neq in Hne.
    split; [reflexivity|]. split; [exact Hne|]. apply trim_ends.
Qed.

Lemma request_carries_trimmed_message_witness :
  [mkMessage user (js "Hello")]
  = messages (mkComponent [] ([32; 10]%N ++ js "Hello" ++ [9; 13]%N) false
                          None false)
    ++ [mkMessage user
          (trim (input (mkComponent [] ([32; 10]%N ++ js "Hello" ++ [9; 13]%N)
                                    false None false)))].
Proof.
  refine (proj1 (request_carries_trimmed_message RefHost.host refused
                   (mkComponent [] ([32; 10]%N ++ js "Hello" ++ [9; 13]%N)
                                false None false)
                   [mkMessage user (js "Hello")] _)).
  vm_compute. repeat (first [left; reflexivity | right]).
Defined.

(** X19.  When the payload of a data line parses and the first choice's
    delta content is truthy, whatever its JSON type, the pass appends its
    string conversion to the accumulated message and emits the new text as
    one snapshot; the cast of [content] to a string is not checked. *)
Theorem truthy_content_is_appended
        (h : Host) (raw rest : jsstring) (s : Loop) (parsed v : JSON)
        (text : jsstring) :
  textBuffer s = raw ++ LF :: rest ->
  ~ In LF raw ->
  startsWith (js "data: ") (strip_cr raw) = true ->
  trim (slice_from 6 (strip_cr raw)) <> js "[DONE]" ->
  JSON_parse h (trim (slice_from 6 (strip_cr raw))) = Some parsed ->
  delta_content parsed = Some (Some v) ->
  ToBoolean h (Some v) = true ->
  ToString h v = Some text ->
  loop_body h (length raw) s
  = Continue (mkLoop rest (assistantMessage s ++ text)
                     (snapshots s ++ [assistantMessage s ++ text])
                     (lines s ++ [strip_cr raw])).
Proof.
  intros HB Hn Hd Hs Hp Hc Hb Ht.
  rewrite (loop_body_line h raw rest s HB). unfold line_step.
  rewrite (verdict_data h _ Hd). cbv zeta.
  apply streqb_neq in Hs. rewrite Hs.
  unfold try_block. rewrite Hp, Hc, Hb, Ht. reflexivity.
Qed.

Lemma truthy_content_is_appended_witness :
  loop_body RefHost.host 47
            (mkLoop (jsq "data: {'choices':[{'delta':{'content':true}}]}"
                       ++ [CR; LF])
                    (js "So far ") [js "So far "] [])
  = Continue (mkLoop [] (js "So far true") [js "So far "; js "So far true"]
                     [jsq "data: {'choices':[{'delta':{'content':true}}]}"]).
Proof.
  apply (truthy_content_is_appended RefHost.host
           (jsq "data: {'choices':[{'delta':{'content':true}}]}" ++ [CR]) []
           (mkLoop (jsq "data: {'choices':[{'delta':{'content':true}}]}"
                      ++ [CR; LF])
                   (js "So far ") [js "So far "] [])
           (JObject [(js "choices",
              JArray [JObject [(js "delta",
                JObject [(js "content", JBool true)])]])])
           (JBool true) (js "true")).
  - reflexivity.
  - vm_compute. intuition discriminate.
  - reflexivity.
  - vm_compute. discriminate.
  - reflexivity.
  - reflexivity.
  - reflexivity.
  - reflexivity.
Defined.

(* ================================================================== *)
(** ** The parse anomaly, the completion signal and the signed-out user *)




(** C6.  The completion signal does not end the turn's reading: with the
    sentinel in the first chunk and a delta in the second, no delta is
    accepted before the stream completes (the loops have no snapshot after
    the sentinel's chunk), and yet the delta that arrives afterwards is
    accumulated and the turn writes it as the assistant row. *)
Theorem assistant_row_written_after_sentinel :
  (exists s0,
      read_stream RefHost.host [js "data: [DONE]" ++ [LF]] loop_start
      = Some s0 /\
      snapshots s0 = [] /\ assistantMessage s0 = []) /\
  saved (fst (handleSend RefHost.host sentinel_then_delta
                         (mkComponent [] (js "Hello") false None false)))
  = [(js "c1", user, js "Hello"); (js "c1", assistant, js "X")] /\
  snd (handleSend RefHost.host sentinel_then_delta
                  (mkComponent [] (js "Hello") false None false)) = Ok tt.
Proof.
  split; [|split].
  - eexists. split; [vm_compute; reflexivity|]. split; reflexivity.
  - vm_compute. reflexivity.
  - vm_compute. reflexivity.
Qed.

(** C8, as stated, fails twice.  Nothing remembers that the notice was
    shown, so each send of a signed-out user in a panel without a
    conversation shows it again: two sends show it twice.  And a panel
    with a current conversation does not consult the principal: the send
    of a signed-out user makes both message inserts under the current id
    (and shows no notice). *)
Lemma signed_out_claim_fails : ~ informed_once /\ ~ persistence_skipped.
Proof.
  split; intros H.
  - specialize (H RefHost.host fresh
                  [(js "Hello", signed_out); (js "Again", signed_out)]).
    assert (Hturns : Forall (fun t : jsstring * World =>
                               auth_user (snd t) = None)
                            [(js "Hello", signed_out); (js "Again", signed_out)])
      by (repeat constructor).
    specialize (H Hturns). vm_compute in H. lia.
  - specialize (H RefHost.host (mkComponent [] [] false (Some (js "c7")) false)
                  [(js "Hello", signed_out)]).
    assert (Hturns : Forall (fun t : jsstring * World =>
                               auth_user (snd t) = None)
                            [(js "Hello", signed_out)])
      by (repeat constructor).
    specialize (H Hturns). vm_compute in H. discriminate H.
Qed.

Lemma ensure_signed_out (w : World) (c : Component) (um : jsstring) :
  truthy (currentConvId c) = false ->
  auth_user w = None ->
  ensure w c um = ([toast_error sign_in_notice], Ok None).
Proof.
  intros Hc Hu. unfold ensure, createConversation. rewrite Hc, Hu. reflexivity.
Qed.

Lemma after_request_no_id (h : Host) (w : World) (nm : list Message) :
  saved (after_request h w nm None) = [].
Proof.
  pose proof (after_request_rows h w nm None) as H.
  destruct (saved (after_request h w nm None)) as [|row rows]; [reflexivity|].
  inversion H as [|? ? Hrow _]. discriminate Hrow.
Qed.

(** C8, amended.  A turn of a signed-out user that passes the guard ends
    without an error, sends its request and creates no conversation row,
    whatever the response.  Without a current conversation,
    [createConversation] returns no identifier and shows the sign-in
    notice; the turn makes no message insert, displays the user's message
    and whatever the response gives to display, and shows the notice once,
    before any notification of a failed response (every such turn shows it
    again); when the body is read to its end it displays every snapshot
    and shows nothing but the notice.  With a current conversation the
    principal is not consulted: the turn shows no notice and makes the
    insert of the user's message under the current id, and, when the body
    is read to its end, that of the accumulated assistant message if it is
    not empty. *)
Theorem signed_out_turn (h : Host) (w : World) (c : Component) :
  auth_user w = None ->
  streqb (trim (input c)) [] || isLoading c = false ->
  let um := trim (input c) in
  let nm := messages c ++ [mkMessage user um] in
  let es := fst (handleSend h w c) in
  snd (handleSend h w c) = Ok tt /\
  requests es = [nm] /\
  created es = [] /\
  (truthy (currentConvId c) = false ->
   createConversation w c um = ([toast_error sign_in_notice], Ok None) /\
   saved es = [] /\
   displayed es = nm :: displayed (after_request h w nm None) /\
   toasts es = sign_in_notice :: toasts (after_request h w nm None) /\
   forall chunks s,
     response w = response_body chunks done ->
     read_stream h chunks loop_start = Some s ->
     displayed es
     = nm :: map (fun text => nm ++ [mkMessage assistant text]) (snapshots s) /\
     toasts es = [sign_in_notice]) /\
  (forall id,
      currentConvId c = Some id -> id <> [] ->
      toasts es = toasts (after_request h w nm (Some id)) /\
      saved es = (id, user, um) :: saved (after_request h w nm (Some id)) /\
      forall chunks s,
        response w = response_body chunks done ->
        read_stream h chunks loop_start = Some s ->
        toasts es = [] /\
        saved es
        = (id, user, um)
            :: (if streqb (assistantMessage s) [] then []
                else [(id, assistant, assistantMessage s)])).
Proof.
  intros Hu Hg um nm es.
  destruct (handleSend_latch h w c Hg) as (Hok & Hreq & _).
  split; [exact Hok|]. split; [exact Hreq|].
  assert (Hfalsy : truthy (currentConvId c) = false ->
                   created es = [] /\
                   saved es = [] /\
                   displayed es = nm :: displayed (after_request h w nm None) /\
                   toasts es = sign_in_notice :: toasts (after_request h w nm None)).
  { intros Hc.
    pose proof (ensure_signed_out w c um Hc Hu) as He.
    destruct (handleSend_summary h w c _ None Hg He)
      as (Hcr & _ & Hd & Hsv & Ht).
    cbv zeta in *. fold um in Hd, Hsv, Ht. fold nm in Hd, Hsv, Ht.
    fold es in Hcr, Hd, Hsv, Ht.
    rewrite (after_request_no_id h w nm) in Hsv.
    repeat split; assumption. }
  assert (Htruthy : forall id, currentConvId c = Some id -> id <> [] ->
                    created es = [] /\
                    toasts es = toasts (after_request h w nm (Some id)) /\
                    saved es
                    = (id, user, um) :: saved (after_request h w nm (Some id))).
  { intros id Hc Hid.
    pose proof (ensure_current w c id um Hc Hid) as He.
    destruct (handleSend_summary h w c [] (Some id) Hg He)
      as (Hcr & _ & _ & Hsv & Ht).
    cbv zeta in *. fold um in Hsv, Ht. fold nm in Hsv, Ht.
    fold es in Hcr, Hsv, Ht.
    split; [exact Hcr|]. split; [exact Ht|].
    rewrite Hsv. unfold rows_if. destruct id; [contradiction | reflexivity]. }
  split; [|split].
  - destruct (currentConvId c) as [[|x id]|] eqn:Hc.
    + apply Hfalsy. reflexivity.
    + apply (Htruthy (x :: id) eq_refl). discriminate.
    + apply Hfalsy. reflexivity.
  - intros Hc. destruct (Hfalsy Hc) as (_ & Hsv & Hd & Ht).
    split; [unfold createConversation; rewrite Hu; reflexivity|].
    split; [exact Hsv|]. split; [exact Hd|]. split; [exact Ht|].
    intros chunks s Hr Hs.
    destruct (after_request_done h w nm None chunks s Hr Hs) as (Hd2 & _ & Ht2).
    rewrite Hd, Ht, Hd2, Ht2. split; reflexivity.
  - intros id Hc Hid. destruct (Htruthy id Hc Hid) as (_ & Ht & Hsv).
    split; [exact Ht|]. split; [exact Hsv|].
    intros chunks s Hr Hs.
    destruct (after_request_done h w nm (Some id) chunks s Hr Hs)
      as (_ & Hs2 & Ht2).
    rewrite Ht, Hsv, Hs2, Ht2. split; [reflexivity|].
    unfold rows_if. destruct id; [contradiction|]. simpl.
    destruct (streqb (assistantMessage s) []); reflexivity.
Qed.

Lemma signed_out_turn_witness :
  saved (fst (handleSend RefHost.host signed_out
                         (mkComponent [] (js "Hello") false None false))) = [] /\
  displayed (fst (handleSend RefHost.host signed_out
                             (mkComponent [] (js "Hello") false None false)))
  = [[mkMessage user (js "Hello")];
     [mkMessage user (js "Hello"); mkMessage assistant (js "Hi")]] /\
  toasts (fst (handleSend RefHost.host signed_out
                          (mkComponent [] (js "Hello") false None false)))
  = [sign_in_notice] /\
  saved (fst (handleSend RefHost.host signed_out
                         (mkComponent [] (js "Hello") false
                                      (Some (js "c7")) false)))
  = [(js "c7", user, js "Hello"); (js "c7", assistant, js "Hi")].
Proof.
  destruct (signed_out_turn RefHost.host signed_out
              (mkComponent [] (js "Hello") false None false)
              eq_refl eq_refl)
    as (_ & _ & _ & Hnone & _).
  destruct (Hnone eq_refl) as (_ & Hsv & _ & _ & Hdone).
  destruct (Hdone [js "data: " ++ delta_frame "Hi" ++ [LF] ++ js "data: [DONE]"
                      ++ [LF]]
                  (mkLoop [] (js "Hi") [js "Hi"]
                          [js "data: " ++ delta_frame "Hi"; js "data: [DONE]"])
                  eq_refl)
    as (Hd & Ht); [vm_compute; reflexivity|].
  destruct (signed_out_turn RefHost.host signed_out
              (mkComponent [] (js "Hello") false (Some (js "c7")) false)
              eq_refl eq_refl)
    as (_ & _ & _ & _ & Hcur).
  destruct (Hcur (js "c7") eq_refl) as (_ & _ & Hdone'); [discriminate|].
  destruct (Hdone' [js "data: " ++ delta_frame "Hi" ++ [LF] ++ js "data: [DONE]"
                       ++ [LF]]
                   (mkLoop [] (js "Hi") [js "Hi"]
                           [js "data: " ++ delta_frame "Hi"; js "data: [DONE]"])
                   eq_refl)
    as (_ & Hsv'); [vm_compute; reflexivity|].
  split; [exact Hsv|]. split; [rewrite Hd; vm_compute; reflexivity|].
  split; [exact Ht | exact Hsv'].
Defined.
